(** * Line_Counter: a shallow embedding of [line_counter.py]

    The script walks a directory tree, counts the lines of every file the
    exclusion rules accept, and renders a Markdown report.  This file
    embeds the functions of [line_counter.py] one by one and proves
    properties of them.

    Conventions of the embedding.
    - A Python [str] is a [string]; the bytes are those of its UTF-8
      encoding, whose lexicographic order is the order of Python's [<] on
      [str] (code point order).  A file name that is not valid UTF-8
      reaches Python with a lone surrogate in the place of each offending
      byte; here it is the [string] of its bytes, and [encodable] tells
      the two kinds apart.
    - A Python [int] is a [Z]; a finite Python [float] is the rational
      number it denotes, a [Q].
    - A Python [set] of [str] is the list of its elements in one of its
      iteration orders; the code only tests membership in such a set or
      sorts it.
    - [str.lower] is a parameter [lower] of the development: the source
      relies on nothing but its being a function.  [ascii_lower] is the
      instance used on concrete inputs.
    - [os.path] is the POSIX one. *)

From Stdlib Require Import String Ascii List Bool ZArith QArith Lia.
From Stdlib Require Import Permutation Sorted.
From Stdlib.Strings Require Import Byte.
Import ListNotations.

Local Open Scope string_scope.
Local Open Scope Z_scope.

Set Warnings "-register-all".

(** ** Characters and strings *)

Definition LF : ascii := ascii_of_nat 10.
Definition nl : string := String LF "".

(** [sep.join(parts)] *)
Fixpoint join (sep : string) (parts : list string) : string :=
  match parts with
  | [] => ""
  | [p] => p
  | p :: rest => p ++ sep ++ join sep rest
  end.

(** [s.startswith(prefix)] *)
Definition startswith (pre s : string) : bool := String.prefix pre s.

(** [s.replace(a, b)] for one-character [a] and [b]. *)
Fixpoint replace (a b : ascii) (s : string) : string :=
  match s with
  | "" => ""
  | String c s' => String (if Ascii.eqb c a then b else c) (replace a b s')
  end.

(** [s.rfind(c)] for a one-character [c]: the last index of [c], or -1. *)
Fixpoint rfind_from (c : ascii) (s : string) (i : Z) (found : Z) : Z :=
  match s with
  | "" => found
  | String x s' => rfind_from c s' (i + 1) (if Ascii.eqb x c then i else found)
  end.

Definition rfind (c : ascii) (s : string) : Z := rfind_from c s 0 (-1).

(** The slice [s[i:j]] for [0 <= i]. *)
Definition slice (s : string) (i j : Z) : string :=
  String.substring (Z.to_nat i) (Z.to_nat (j - i)) s.

(** The slice [s[i:]] for [0 <= i]. *)
Definition slice_from (s : string) (i : Z) : string :=
  String.substring (Z.to_nat i) (String.length s - Z.to_nat i) s.

(** [x in s] for a set of strings. *)
Definition mem (x : string) (s : list string) : bool :=
  existsb (String.eqb x) s.

(** The ASCII part of [str.lower]. *)
Definition ascii_lower_char (c : ascii) : ascii :=
  let n := nat_of_ascii c in
  if ((65 <=? n) && (n <=? 90))%nat then ascii_of_nat (n + 32) else c.

Fixpoint ascii_lower (s : string) : string :=
  match s with
  | "" => ""
  | String c s' => String (ascii_lower_char c) (ascii_lower s')
  end.

(** ** Numbers and their formats *)

(** The decimal digits of a non-negative integer, as [str] prints them. *)
Definition digit (d : Z) : ascii := ascii_of_nat (48 + Z.to_nat d).

Fixpoint digits_fuel (fuel : nat) (n : Z) (acc : string) : string :=
  match fuel with
  | O => acc
  | S fuel' =>
      let acc' := String (digit (n mod 10)) acc in
      if n <? 10 then acc' else digits_fuel fuel' (n / 10) acc'
  end.

Definition digits (n : Z) : string :=
  digits_fuel (S (Z.to_nat (Z.log2 n))) n "".

(** [str(n)] for an [int]. *)
Definition str (n : Z) : string :=
  if n <? 0 then "-" ++ digits (- n) else digits n.

(** Grouping by thousands: [group3 s] puts a comma before every group of
    three characters counted from the end of [s], the first one apart. *)
Fixpoint group3 (s : string) : string :=
  match s with
  | "" => ""
  | String c s' =>
      if ((String.length s' mod 3 =? 0) && negb (String.length s' =? 0))%nat
      then String c (String "," (group3 s'))
      else String c (group3 s')
  end.

(** [f"{n:,}"] for an [int]. *)
Definition format_commas (n : Z) : string :=
  if n <? 0 then "-" ++ group3 (digits (- n)) else group3 (digits n).

(** Rounding a rational to the nearest integer, ties to the even one. *)
Definition round_half_even (q : Q) : Z :=
  let n := Qnum q in
  let d := Z.pos (Qden q) in
  let f := n / d in
  let r := n mod d in
  match 2 * r ?= d with
  | Lt => f
  | Gt => f + 1
  | Eq => if Z.even f then f else f + 1
  end.

(** [n / 1024] for a non-negative [int] n: true division rounds the
    quotient to the nearest double.  Below [2^53] it is exact; above, the
    numerator keeps 53 significant bits. *)
Definition true_div_1024 (n : Z) : Q :=
  if n <? 2 ^ 53 then n # 1024
  else
    let k := Z.log2 n - 52 in
    (round_half_even (n # Z.to_pos (2 ^ k)) * 2 ^ k) # 1024.

(** [f"{x:.1f}"] for a finite [float] x: the decimal with one fractional
    digit nearest to the exact value of [x], ties to even. *)
Definition format_1f_abs (q : Q) : string :=
  let t := round_half_even (q * 10) in
  digits (t / 10) ++ "." ++ digits (t mod 10).

Definition format_1f (q : Q) : string :=
  if Qlt_le_dec q 0 then "-" ++ format_1f_abs (- q) else format_1f_abs q.

(** ** Ordering and [sorted] *)

(** The comparisons [sorted] makes on keys: Python's [==] and [<]. *)
Class PyOrd (K : Type) := { py_eq : K -> K -> bool; py_lt : K -> K -> bool }.

#[export] Instance PyOrd_int : PyOrd Z := {| py_eq := Z.eqb; py_lt := Z.ltb |}.

#[export] Instance PyOrd_str : PyOrd string :=
  {| py_eq := String.eqb; py_lt := String.ltb |}.

(** Tuples compare by their first components unless these are equal. *)
#[export] Instance PyOrd_tuple {A B : Type} `{PyOrd A} `{PyOrd B} : PyOrd (A * B) :=
  {| py_eq := fun x y => py_eq (fst x) (fst y) && py_eq (snd x) (snd y);
     py_lt := fun x y =>
       if py_eq (fst x) (fst y) then py_lt (snd x) (snd y)
       else py_lt (fst x) (fst y) |}.

(** The laws of a total order, which [int], [str] and their tuples obey. *)
Class PyOrdLaws (K : Type) `{PyOrd K} := {
  py_eq_spec : forall a b : K, py_eq a b = true <-> a = b;
  py_lt_irrefl : forall a : K, py_lt a a = false;
  py_lt_trans : forall a b c : K,
    py_lt a b = true -> py_lt b c = true -> py_lt a c = true;
  py_lt_total : forall a b : K,
    py_lt a b = false -> py_lt b a = false -> a = b
}.

Section Sorted.
Context {A K : Type} `{PyOrd K}.
Variable key : A -> K.

(** [list.sort] is stable: an element goes before the first element that
    is not smaller than it, hence after the smaller ones and before its
    equals that came later in the input. *)
Fixpoint insert_sorted (x : A) (l : list A) : list A :=
  match l with
  | [] => [x]
  | y :: l' =>
      if py_lt (key y) (key x) then y :: insert_sorted x l' else x :: y :: l'
  end.

(** [sorted(l, key=key)] *)
Fixpoint sorted (l : list A) : list A :=
  match l with
  | [] => []
  | x :: l' => insert_sorted x (sorted l')
  end.

(** [sorted(l, key=key, reverse=True)]: CPython reverses the list, sorts
    it, and reverses the result, which keeps equal elements in their
    input order. *)
Definition sorted_reverse (l : list A) : list A := rev (sorted (rev l)).

End Sorted.

(** [a <= b], as the negation of [b < a]. *)
Definition py_le {K : Type} `{PyOrd K} (a b : K) : Prop := py_lt b a = false.

(** Ascending and descending order of the keys of two elements, the first
    of which comes earlier in a list. *)
Definition ascending {A K : Type} `{PyOrd K} (key : A -> K) (a b : A) : Prop :=
  py_le (key a) (key b).

Definition descending {A K : Type} `{PyOrd K} (key : A -> K) (a b : A) : Prop :=
  py_le (key b) (key a).

(** The slice [l[:n]]: a negative [n] counts from the end. *)
Definition slice_to {A : Type} (l : list A) (n : Z) : list A :=
  if n <? 0 then firstn (Z.to_nat (Z.of_nat (length l) + n)) l
  else firstn (Z.to_nat n) l.

(** ** The directory tree *)

(** A file as the scan sees it: its name, what [os.path.getsize] returns
    ([None]: it raises [OSError]) and the bytes that opening and reading
    it gives ([None]: [open] or the read raises [OSError]). *)
Record file := {
  f_name : string;
  f_size : option Z;
  f_bytes : option (list byte)
}.

(** A directory entry.  The entries of a directory are listed in the
    order in which [os.scandir] yields them.  A directory that cannot be
    listed or that is a symbolic link (which [os.walk] does not follow)
    contributes no file: it is a [Dir] with no entries. *)
Inductive entry :=
| File (f : file)
| Dir (name : string) (entries : list entry).

Definition dir_names (es : list entry) : list string :=
  flat_map (fun e => match e with Dir d _ => [d] | File _ => [] end) es.

Definition files_of (es : list entry) : list file :=
  flat_map (fun e => match e with File f => [f] | Dir _ _ => [] end) es.

(** ** Reading a file as text *)

Definition text := list N.

Definition is_continuation (c : N) : bool := ((128 <=? c) && (c <=? 191))%N.

(** The second byte of a three-byte sequence: [E0] excludes overlong
    forms, [ED] the surrogates. *)
Definition second_of_3 (c0 c1 : N) : bool :=
  (is_continuation c1
   && (if c0 =? 224 then 160 <=? c1 else if c0 =? 237 then c1 <? 160 else true))%N.

(** The second byte of a four-byte sequence: [F0] excludes overlong
    forms, [F4] the code points above [10FFFF]. *)
Definition second_of_4 (c0 c1 : N) : bool :=
  (is_continuation c1
   && (if c0 =? 240 then 144 <=? c1 else if c0 =? 244 then c1 <? 144 else true))%N.

(** [bytes.decode('utf-8', errors='ignore')]: an invalid start byte is
    dropped; an invalid continuation drops the bytes before it, and
    decoding resumes at the offending byte; a sequence cut by the end of
    the data is dropped. *)
Fixpoint decode_utf8_ignore (bs : list byte) : text :=
  match bs with
  | [] => []
  | b0 :: r0 =>
      let c0 := Byte.to_N b0 in
      if (c0 <? 128)%N then c0 :: decode_utf8_ignore r0
      else if (c0 <? 194)%N then decode_utf8_ignore r0
      else if (c0 <? 224)%N then
        match r0 with
        | [] => []
        | b1 :: r1 =>
            let c1 := Byte.to_N b1 in
            if is_continuation c1
            then ((c0 - 192) * 64 + (c1 - 128))%N :: decode_utf8_ignore r1
            else decode_utf8_ignore r0
        end
      else if (c0 <? 240)%N then
        match r0 with
        | [] => []
        | b1 :: r1 =>
            let c1 := Byte.to_N b1 in
            if second_of_3 c0 c1 then
              match r1 with
              | [] => []
              | b2 :: r2 =>
                  let c2 := Byte.to_N b2 in
                  if is_continuation c2
                  then ((c0 - 224) * 4096 + (c1 - 128) * 64 + (c2 - 128))%N
                         :: decode_utf8_ignore r2
                  else decode_utf8_ignore r1
              end
            else decode_utf8_ignore r0
        end
      else if (c0 <? 245)%N then
        match r0 with
        | [] => []
        | b1 :: r1 =>
            let c1 := Byte.to_N b1 in
            if second_of_4 c0 c1 then
              match r1 with
              | [] => []
              | b2 :: r2 =>
                  let c2 := Byte.to_N b2 in
                  if is_continuation c2 then
                    match r2 with
                    | [] => []
                    | b3 :: r3 =>
                        let c3 := Byte.to_N b3 in
                        if is_continuation c3
                        then ((c0 - 240) * 262144 + (c1 - 128) * 4096
                              + (c2 - 128) * 64 + (c3 - 128))%N
                               :: decode_utf8_ignore r3
                        else decode_utf8_ignore r2
                    end
                  else decode_utf8_ignore r1
              end
            else decode_utf8_ignore r0
        end
      else decode_utf8_ignore r0
  end.

(** Universal newlines, the mode of [open(path, 'r')]: the reader turns
    each ["\r\n"] and each remaining ["\r"] into ["\n"]. *)
Fixpoint translate_newlines (t : text) : text :=
  match t with
  | [] => []
  | c :: r =>
      if (c =? 13)%N then
        match r with
        | c' :: r' =>
            if (c' =? 10)%N then 10%N :: translate_newlines r'
            else 10%N :: translate_newlines r
        | [] => [10%N]
        end
      else c :: translate_newlines r
  end.

(** Iterating over the file object: each line runs up to and including
    the next ["\n"]; what follows the last one is a line when it is not
    empty.  [cur] holds the characters of the current line, reversed. *)
Fixpoint iter_lines (cur : text) (t : text) : list text :=
  match t with
  | [] => match cur with [] => [] | _ => [rev cur] end
  | c :: r =>
      if (c =? 10)%N then rev (c :: cur) :: iter_lines [] r
      else iter_lines (c :: cur) r
  end.

(** [open(filepath, 'r', encoding='utf-8', errors='ignore')] and the
    lines the file object yields; [None] when [OSError] is raised. *)
Definition open_lines (f : file) : option (list text) :=
  match f_bytes f with
  | None => None
  | Some bs => Some (iter_lines [] (translate_newlines (decode_utf8_ignore bs)))
  end.

(** [count_lines(filepath)] *)
Definition count_lines (f : file) : Z :=
  match open_lines f with
  | Some ls => fold_right Z.add 0 (map (fun _ => 1) ls)
  | None => 0
  end.

(** ** Writing a file as text *)

(** The bytes are valid UTF-8.  The function follows [decode_utf8_ignore]
    and fails where that one drops a byte. *)
Fixpoint utf8_valid (bs : list byte) : bool :=
  match bs with
  | [] => true
  | b0 :: r0 =>
      let c0 := Byte.to_N b0 in
      if (c0 <? 128)%N then utf8_valid r0
      else if (c0 <? 194)%N then false
      else if (c0 <? 224)%N then
        match r0 with
        | b1 :: r1 => is_continuation (Byte.to_N b1) && utf8_valid r1
        | [] => false
        end
      else if (c0 <? 240)%N then
        match r0 with
        | b1 :: b2 :: r2 =>
            second_of_3 c0 (Byte.to_N b1) && is_continuation (Byte.to_N b2)
            && utf8_valid r2
        | _ => false
        end
      else if (c0 <? 245)%N then
        match r0 with
        | b1 :: b2 :: b3 :: r3 =>
            second_of_4 c0 (Byte.to_N b1) && is_continuation (Byte.to_N b2)
            && is_continuation (Byte.to_N b3) && utf8_valid r3
        | _ => false
        end
      else false
  end.

(** [s.encode('utf-8')] succeeds: the [str] holds no lone surrogate.  A
    file opened with [encoding='utf-8'] encodes what is written to it in
    this way, and [write] raises [UnicodeEncodeError] otherwise. *)
Definition encodable (s : string) : bool :=
  utf8_valid (list_byte_of_string s).

(** ** Configuration *)

Definition DEFAULT_SKIP_DIRS : list string :=
  ["__pycache__"; ".git"; "node_modules"; "venv"; "env"; ".venv"; ".env";
   "logs"; "!backups"].

Definition DEFAULT_SKIP_EXTENSIONS_BY_CATEGORY : list (string * list string) :=
  [("Document Files",
    [".md"; ".pdf"; ".doc"; ".docx"; ".xls"; ".xlsx"; ".ppt"; ".pptx";
     ".odt"; ".ods"; ".odp"; ".rtf"; ".txt"; ".csv"; ".tsv"]);
   ("Database Files",
    [".db"; ".sqlite"; ".sqlite3"; ".db3"; ".mdb"; ".accdb"; ".sql";
     ".frm"; ".myd"; ".myi"]);
   ("Image Files",
    [".jpg"; ".jpeg"; ".png"; ".gif"; ".bmp"; ".tiff"; ".tif"; ".webp";
     ".svg"; ".ico"; ".psd"; ".ai"; ".eps"; ".raw"; ".heic"; ".heif";
     ".indd"; ".cr2"; ".nef"; ".arw"; ".dng"]);
   ("Archive/Compressed Files",
    [".zip"; ".rar"; ".7z"; ".tar"; ".gz"; ".bz2"; ".xz"]);
   ("Backup and Cache Files",
    [".bak"; ".tmp"; ".swp"; ".swo"; "~"]);
   ("Binary/Compiled Files",
    [".pyc"; ".pyo"; ".pyd"; ".so"; ".dll"; ".exe"; ".class"]);
   ("System and Config Files",
    [".ini"; ".cfg"; ".conf"; ".log"; ".lock"; ".lnk"])].

(** The categories flattened into one set. *)
Definition DEFAULT_SKIP_EXTENSIONS : list string :=
  flat_map snd DEFAULT_SKIP_EXTENSIONS_BY_CATEGORY.

(** ** The walk *)

(** [os.path.splitext(p)]: the extension starts at the last dot of the
    last path component, unless only dots precede it there. *)
Definition splitext (p : string) : string * string :=
  let sepIndex := rfind "/" p in
  let dotIndex := rfind "." p in
  if sepIndex <? dotIndex then
    if existsb (fun c => negb (Ascii.eqb c "."))
         (list_ascii_of_string (slice p (sepIndex + 1) dotIndex))
    then (slice p 0 dotIndex, slice_from p dotIndex)
    else (p, "")
  else (p, "").

(** A record of the result, the dict that [get_file_info] appends. *)
Record FileRecord := {
  path : string;
  lines : Z;
  size_kb : Q;
  ext : string
}.

(** One item of [os.walk(startpath, topdown=True)]: the directory, given
    by the names that lead to it from [startpath], the names of its
    subdirectories, and its files. *)
Definition walk_item : Type := list string * list string * list file.

(** [os.walk(startpath, topdown=True)] as the loop of [get_file_info]
    drives it.  The loop body first replaces [dirs] in place by those of
    its names that [keep] accepts, and the generator descends into the
    names left in [dirs], in their order.  A [startpath] that is not a
    directory yields nothing. *)
Fixpoint os_walk (keep : string -> bool) (rel : list string) (top : entry)
  : list walk_item :=
  match top with
  | File _ => []
  | Dir _ es =>
      (rel, filter keep (dir_names es), files_of es)
      :: flat_map
           (fun e =>
              match e with
              | Dir d _ => if keep d then os_walk keep (rel ++ [d]) e else []
              | File _ => []
              end) es
  end.

(** [os.path.relpath(os.path.join(root, file), startpath).replace('\\', '/')]
    where [root] was reached from [startpath] through the directories
    [rel]: the names, joined by [os.sep]. *)
Definition rel_path (rel : list string) (name : string) : string :=
  replace "\" "/" (join "/" (rel ++ [name])).

Section LineCounter.

(** [str.lower] *)
Variable lower : string -> string.

(** The body of the loop over [files]: the record appended for the file,
    or [None] where the body runs into a [continue]. *)
Definition scan_file (skip_extensions : list string) (rel : list string)
  (f : file) : option FileRecord :=
  let name := f_name f in
  if startswith "." name || String.eqb name "desktop.ini"
     || String.eqb name "__init__.py"
  then None
  else
    let ext := lower (snd (splitext name)) in
    if mem ext skip_extensions then None
    else
      match f_size f with
      | None => None
      | Some size =>
          Some {| path := rel_path rel name;
                  lines := count_lines f;
                  size_kb := true_div_1024 size;
                  ext := match ext with "" => "none" | String _ e => e end |}
      end.

(** The list [file_info] when the loop ends, each record with the file it
    was made for and the directory that file is in. *)
Definition scan (skip_dirs skip_extensions : list string) (startpath : entry)
  : list (list string * file * FileRecord) :=
  flat_map
    (fun item : walk_item =>
       let '(rel, _, files) := item in
       flat_map
         (fun f =>
            match scan_file skip_extensions rel f with
            | Some r => [(rel, f, r)]
            | None => []
            end) files)
    (os_walk (fun d => negb (mem d skip_dirs)) [] startpath).

(** [get_file_info(startpath, skip_dirs, skip_extensions)]; [startpath]
    is given by the tree found there. *)
Definition get_file_info (startpath : entry)
  (skip_dirs skip_extensions : option (list string)) : list FileRecord :=
  let skip_dirs :=
    match skip_dirs with Some s => s | None => DEFAULT_SKIP_DIRS end in
  let skip_extensions :=
    match skip_extensions with Some s => s | None => DEFAULT_SKIP_EXTENSIONS end in
  let file_info := map snd (scan skip_dirs skip_extensions startpath) in
  sorted (fun x => lower (path x)) file_info.

(** ** Tables *)

Definition no_files : string := "*No files found matching the criteria.*".
Definition no_non_empty_files : string := "*No non-empty files found.*".

(** The order of the full listing. *)
Definition sort_full_listing (file_info : list FileRecord) : list FileRecord :=
  sorted (fun x => (- lines x, lower (path x))) file_info.

Definition markdown_row (info : FileRecord) : string :=
  "| `" ++ path info ++ "` | " ++ ext info ++ " | "
  ++ format_commas (lines info) ++ " | " ++ format_1f (size_kb info) ++ " |".

(** [generate_markdown_table(file_info)] *)
Definition generate_markdown_table (file_info : list FileRecord) : string :=
  match file_info with
  | [] => no_files
  | _ =>
      let sorted_info := sort_full_listing file_info in
      join nl
        (["| File | Extension | Lines | Size (KB) |";
          "|------|-----------|-------|-----------|"]
         ++ map markdown_row sorted_info)
  end.

(** [enumerate(l, start)] *)
Fixpoint enumerate {A : Type} (l : list A) (start : Z) : list (Z * A) :=
  match l with
  | [] => []
  | x :: l' => (start, x) :: enumerate l' (start + 1)
  end.

Definition file_table_cells (show_rank : bool) (i : Z) (info : FileRecord)
  : list string :=
  (if show_rank then [str i] else [])
  ++ ["`" ++ path info ++ "`"; format_commas (lines info);
      format_1f (size_kb info)].

Definition file_table_row (show_rank : bool) (i : Z) (info : FileRecord)
  : string :=
  "| " ++ join " | " (file_table_cells show_rank i info) ++ " |".

(** [generate_file_table(files, show_rank)] *)
Definition generate_file_table (files : list FileRecord) (show_rank : bool)
  : string :=
  match files with
  | [] => no_files
  | _ =>
      let headers :=
        if show_rank then ["Rank"; "File"; "Lines"; "Size (KB)"]
        else ["File"; "Lines"; "Size (KB)"] in
      let separator := map (fun _ => "------") headers in
      join nl
        (["| " ++ join " | " headers ++ " |";
          "|" ++ join "|" separator ++ "|"]
         ++ map (fun p => file_table_row show_rank (fst p) (snd p))
              (enumerate files 1))
  end.

Definition non_empty_files (file_info : list FileRecord) : list FileRecord :=
  filter (fun f => 0 <? lines f) file_info.

(** The records that [generate_top_files_table] passes on to
    [generate_file_table]. *)
Definition top_files (file_info : list FileRecord) (top_n : Z)
  : list FileRecord :=
  slice_to (sorted_reverse lines (non_empty_files file_info)) top_n.

(** [generate_top_files_table(file_info, top_n)] *)
Definition generate_top_files_table (file_info : list FileRecord) (top_n : Z)
  : string :=
  match file_info with
  | [] => no_files
  | _ =>
      match non_empty_files file_info with
      | [] => no_non_empty_files
      | _ => generate_file_table (top_files file_info top_n) true
      end
  end.

(** The records that [generate_bottom_files_table] passes on. *)
Definition bottom_files (file_info : list FileRecord) (bottom_n : Z)
  : list FileRecord :=
  slice_to (sorted lines (non_empty_files file_info)) bottom_n.

(** [generate_bottom_files_table(file_info, bottom_n)] *)
Definition generate_bottom_files_table (file_info : list FileRecord)
  (bottom_n : Z) : string :=
  match file_info with
  | [] => no_files
  | _ =>
      match non_empty_files file_info with
      | [] => no_non_empty_files
      | _ => generate_file_table (bottom_files file_info bottom_n) true
      end
  end.

(** ** The report *)

Definition backticked (x : string) : string := "`" ++ x ++ "`".

(** [generate_exclusions_list()] for given configuration tables.  The
    items of the dict are sorted, which compares their keys, the
    category names; each set is sorted. *)
Definition exclusions_list (by_category : list (string * list string))
  (skip_dirs : list string) : string :=
  join nl
    (["## Excluded File Types and Directories"; ""]
     ++ flat_map
          (fun item : string * list string =>
             ["### " ++ fst item;
              join ", " (map backticked (sorted (fun x => x) (snd item)));
              ""])
          (sorted fst by_category)
     ++ ["### Excluded Directories";
         join ", " (map backticked (sorted (fun x => x) skip_dirs));
         nl ++ "*Note: The scan also excludes hidden files (names starting with a `.period` ), "
         ++ "`__init__.py`, and `desktop.ini` files.*"]).

(** [generate_exclusions_list()] *)
Definition generate_exclusions_list : string :=
  exclusions_list DEFAULT_SKIP_EXTENSIONS_BY_CATEGORY DEFAULT_SKIP_DIRS.

(** [generate_report(start_path, file_info, top_n)] *)
Definition generate_report (start_path : string) (file_info : list FileRecord)
  (top_n : Z) : string :=
  join nl
    ["# Line Count Report";
     "*Generated at: `" ++ start_path ++ "`*";
     "";
     "## File Statistics";
     "- **Total files analyzed:** " ++ format_commas (Z.of_nat (length file_info));
     "- **Total lines of code:** "
       ++ format_commas (fold_right Z.add 0 (map lines file_info));
     "";
     "## Largest Files";
     "*Top " ++ str top_n ++ " files by line count*";
     "";
     generate_top_files_table file_info top_n;
     "";
     "---";
     "";
     "## Smallest Files";
     "*Top 5 smallest non-empty files*";
     "";
     generate_bottom_files_table file_info 5;
     "";
     "---";
     "";
     "## Complete File List";
     "*Sorted by line count (descending), then by filename*";
     "";
     generate_markdown_table file_info;
     "";
     "---";
     "";
     generate_exclusions_list].

(** ** The command line *)

(** What [main] reads of its environment: the working directory,
    [os.path.abspath], the tree found at a path, and what becomes of
    writing a file there: [open_error] is the outcome of
    [open(path, 'w', encoding='utf-8')] ([Some msg]: it raises [IOError]
    with that message, and no file is created or truncated), and
    [write_error] that of writing a text, once encoded, to the open file
    and closing it ([Some msg]: [IOError] with that message, after the
    file was created or truncated). *)
Record world := {
  getcwd : string;
  abspath : string -> string;
  lookup : string -> option entry;
  open_error : string -> option string;
  write_error : string -> string -> option string
}.

(** [os.path.isdir(p)] *)
Definition isdir (w : world) (p : string) : bool :=
  match lookup w p with
  | Some (Dir _ _) => true
  | _ => false
  end.

(** The parsed arguments. *)
Record namespace := {
  arg_path : string;
  arg_output : string;
  arg_top_n : Z
}.

(** [parse_arguments()]: each argument as given on the command line, or
    its default. *)
Definition parse_arguments (w : world) (given_path given_output : option string)
  (given_top_n : option Z) : namespace :=
  {| arg_path := match given_path with Some p => p | None => getcwd w end;
     arg_output :=
       match given_output with Some o => o | None => "LINE_COUNT.md" end;
     arg_top_n := match given_top_n with Some n => n | None => 10 end |}.

(** What [main] does to the world.  [Print m]: [print(m)]; standard
    output is taken to accept every message.  [OpenFile p]:
    [open(p, 'w')] returned, the file [p] exists and is empty.
    [WriteFile p c]: the whole of [c] was written to [p] and [p] was
    closed.  An opened file that no [WriteFile] follows is left with a
    part of the content at most.  [Uncaught e]: the exception [e] leaves
    [main]. *)
Inductive event :=
| Print (message : string)
| OpenFile (output_path : string)
| WriteFile (output_path content : string)
| Uncaught (exception : string).

(** [main()], for the arguments that [parse_arguments] returned.  The
    first match is the test [os.path.isdir(start_path)].  In the [try]
    block, [open] may raise [IOError]; [f.write] encodes the report,
    which raises [UnicodeEncodeError] when it holds a lone surrogate,
    and this is no [IOError]: the [with] statement closes the empty file
    and the exception leaves [main]; writing the bytes may raise
    [IOError]. *)
Definition main (w : world) (args : namespace) : list event :=
  let start_path := abspath w (arg_path args) in
  match lookup w start_path with
  | Some (Dir name es) =>
      Print ("Analyzing files in: " ++ start_path ++ "...")
      :: match get_file_info (Dir name es) None None with
         | [] =>
             [Print "No files found matching the criteria. Report not generated."]
         | file_info =>
             let report_content :=
               generate_report start_path file_info (arg_top_n args) in
             let output_path := abspath w (arg_output args) in
             match open_error w output_path with
             | Some e =>
                 [Print ("Error writing to " ++ output_path ++ ": " ++ e)]
             | None =>
                 OpenFile output_path
                 :: if encodable report_content then
                      match write_error w output_path report_content with
                      | None =>
                          [WriteFile output_path report_content;
                           Print ("Report generated successfully: "
                                  ++ output_path)]
                      | Some e =>
                          [Print ("Error writing to " ++ output_path ++ ": "
                                  ++ e)]
                      end
                    else [Uncaught "UnicodeEncodeError"]
             end
         end
  | _ => [Print ("Error: '" ++ start_path ++ "' is not a valid directory.")]
  end.

End LineCounter.

(** ** Vocabulary of the specification *)

(** The order of the full listing: of two records, the one with more
    lines comes first; with as many lines, the one that comes first does
    not have the greater path, case ignored. *)
Definition listing_order (lower : string -> string) (a b : FileRecord) : Prop :=
  lines b < lines a
  \/ (lines a = lines b
      /\ String.ltb (lower (path b)) (lower (path a)) = false).

(** What a table function returns for the records [rows] that it selected
    from [file_info]. *)
Definition ranked_table_of (file_info rows : list FileRecord) : string :=
  match file_info with
  | [] => no_files
  | _ =>
      match non_empty_files file_info with
      | [] => no_non_empty_files
      | _ => generate_file_table rows true
      end
  end.

(** A character that ends a line: a line feed, or a carriage return that
    no line feed follows (a carriage return and the line feed after it
    are one terminator, which the line feed ends). *)
Definition ends_line (c : N) (rest : text) : bool :=
  ((c =? 10)
   || ((c =? 13)
       && negb match rest with c' :: _ => c' =? 10 | [] => false end))%N.

(** The number of line terminators of a text, that is, of its segments
    that a line terminator ends. *)
Fixpoint line_terminators (t : text) : Z :=
  match t with
  | [] => 0
  | c :: rest => (if ends_line c rest then 1 else 0) + line_terminators rest
  end.

(** The text does not end where a line ends: it is not empty and its last
    character is no line feed and no carriage return. *)
Definition unterminated_tail (t : text) : bool :=
  negb ((last t 10 =? 10) || (last t 10 =? 13))%N.

(** [located top rel f]: the file [f] is in the directory that the names
    [rel] lead to from the directory [top]; the directories named in
    [rel] are those the file is beneath, below [top]. *)
Inductive located : entry -> list string -> file -> Prop :=
| located_here (name : string) (es : list entry) (f : file) :
    In (File f) es -> located (Dir name es) [] f
| located_below (name : string) (es : list entry) (d : string)
    (sub : list entry) (rel : list string) (f : file) :
    In (Dir d sub) es -> located (Dir d sub) rel f ->
    located (Dir name es) (d :: rel) f.

(** The sets in force for the optional arguments of [get_file_info]. *)
Definition skip_dirs_of (given : option (list string)) : list string :=
  match given with Some s => s | None => DEFAULT_SKIP_DIRS end.

Definition skip_extensions_of (given : option (list string)) : list string :=
  match given with Some s => s | None => DEFAULT_SKIP_EXTENSIONS end.

(** The three grounds on which a file name is rejected. *)
Definition rejected_by_name (lower : string -> string)
  (skip_extensions : list string) (name : string) : Prop :=
  startswith "." name = true
  \/ name = "desktop.ini" \/ name = "__init__.py"
  \/ In (lower (snd (splitext name))) skip_extensions.

(** [sub in s]: [sub] occurs in [s]. *)
Fixpoint contains (sub s : string) : bool :=
  String.prefix sub s
  || match s with "" => false | String _ s' => contains sub s' end.

(** A decimal digit. *)
Definition is_digit (c : ascii) : bool :=
  ((48 <=? nat_of_ascii c) && (nat_of_ascii c <=? 57))%nat.

Fixpoint all_digits (s : string) : bool :=
  match s with
  | "" => true
  | String c s' => is_digit c && all_digits s'
  end.

(** The number that a string of decimal digits spells, after [acc]. *)
Fixpoint decimal_value (acc : Z) (s : string) : Z :=
  match s with
  | "" => acc
  | String c s' => decimal_value (acc * 10 + (Z.of_nat (nat_of_ascii c) - 48)) s'
  end.

(** The string without its commas. *)
Fixpoint strip_commas (s : string) : string :=
  match s with
  | "" => ""
  | String c s' =>
      if Ascii.eqb c "," then strip_commas s' else String c (strip_commas s')
  end.

(** [s.split(',')] *)
Fixpoint comma_groups (s : string) : list string :=
  match s with
  | "" => [""]
  | String c s' =>
      if Ascii.eqb c "," then "" :: comma_groups s'
      else
        match comma_groups s' with
        | g :: gs => String c g :: gs
        | [] => [String c ""]
        end
  end.

(** Digits grouped by thousands: a first group of one to three digits,
    then groups of three. *)
Definition grouped_by_thousands (s : string) : Prop :=
  exists g gs,
    comma_groups s = g :: gs
    /\ (1 <= String.length g <= 3)%nat
    /\ Forall (fun x => String.length x = 3%nat) gs
    /\ Forall (fun x => all_digits x = true) (g :: gs).

(** A row of the full listing. *)
Definition full_row (r : FileRecord) : string :=
  "| `" ++ path r ++ "` | " ++ ext r ++ " | " ++ format_commas (lines r)
  ++ " | " ++ format_1f (size_kb r) ++ " |".

(** A row of a table of largest or smallest files, with its rank. *)
Definition ranked_row (rank : Z) (r : FileRecord) : string :=
  "| " ++ str rank ++ " | `" ++ path r ++ "` | " ++ format_commas (lines r)
  ++ " | " ++ format_1f (size_kb r) ++ " |".

(** The rows of such a table for the records [rows], ranked from [rank]. *)
Fixpoint ranked_rows (rank : Z) (rows : list FileRecord) : list string :=
  match rows with
  | [] => []
  | r :: rest => ranked_row rank r :: ranked_rows (rank + 1) rest
  end.

(** The table of largest or smallest files that shows the records [rows],
    selected from [file_info]: a message when [file_info] is empty, when
    it has no record with a line, or when no record is selected. *)
Definition selection_table (file_info rows : list FileRecord) : string :=
  match file_info with
  | [] => "*No files found matching the criteria.*"
  | _ =>
      match filter (fun r => 0 <? lines r) file_info with
      | [] => "*No non-empty files found.*"
      | _ =>
          match rows with
          | [] => "*No files found matching the criteria.*"
          | _ =>
              join nl
                ("| Rank | File | Lines | Size (KB) |"
                 :: "|------|------|------|------|"
                 :: ranked_rows 1 rows)
          end
      end
  end.

(** Two trees with the same contents: the same files and directories,
    each directory listing them in an order of its own. *)
Inductive same_tree : entry -> entry -> Prop :=
| same_file (f : file) : same_tree (File f) (File f)
| same_dir (name : string) (es es' : list entry) :
    same_listing es es' -> same_tree (Dir name es) (Dir name es')
with same_listing : list entry -> list entry -> Prop :=
| same_nil : same_listing [] []
| same_cons (e e' : entry) (es es' : list entry) :
    same_tree e e' -> same_listing es es' -> same_listing (e :: es) (e' :: es')
| same_swap (e1 e2 : entry) (es : list entry) :
    same_listing (e1 :: e2 :: es) (e2 :: e1 :: es)
| same_trans (es1 es2 es3 : list entry) :
    same_listing es1 es2 -> same_listing es2 es3 -> same_listing es1 es3.

Scheme same_tree_min := Minimality for same_tree Sort Prop
  with same_listing_min := Minimality for same_listing Sort Prop.

Combined Scheme same_tree_listing_ind from same_tree_min, same_listing_min.

(** The same configuration, its sets iterated in another order. *)
Definition same_categories (cats cats' : list (string * list string)) : Prop :=
  Forall2
    (fun c c' => fst c = fst c' /\ NoDup (snd c) /\ Permutation (snd c) (snd c'))
    cats cats'.

(** The sets of the configuration as one run iterates them.  A Python
    set has no order of its own: the order in which a process iterates
    [DEFAULT_SKIP_DIRS], the sets of [DEFAULT_SKIP_EXTENSIONS_BY_CATEGORY]
    and [DEFAULT_SKIP_EXTENSIONS] follows the hashes of the strings,
    which differ from one process to the next. *)
Definition iteration_of_configuration (dirs : list string)
  (cats : list (string * list string)) (exts : list string) : Prop :=
  Permutation DEFAULT_SKIP_DIRS dirs
  /\ same_categories DEFAULT_SKIP_EXTENSIONS_BY_CATEGORY cats
  /\ Permutation DEFAULT_SKIP_EXTENSIONS exts.

(** The report of [generate_report] with [catalogue] in the place of the
    catalogue of exclusions. *)
Definition report_with_catalogue (lower : string -> string)
  (catalogue start_path : string) (file_info : list FileRecord) (top_n : Z)
  : string :=
  join nl
    ["# Line Count Report";
     "*Generated at: `" ++ start_path ++ "`*";
     "";
     "## File Statistics";
     "- **Total files analyzed:** " ++ format_commas (Z.of_nat (length file_info));
     "- **Total lines of code:** "
       ++ format_commas (fold_right Z.add 0 (map lines file_info));
     "";
     "## Largest Files";
     "*Top " ++ str top_n ++ " files by line count*";
     "";
     generate_top_files_table file_info top_n;
     "";
     "---";
     "";
     "## Smallest Files";
     "*Top 5 smallest non-empty files*";
     "";
     generate_bottom_files_table file_info 5;
     "";
     "---";
     "";
     "## Complete File List";
     "*Sorted by line count (descending), then by filename*";
     "";
     generate_markdown_table lower file_info;
     "";
     "---";
     "";
     catalogue].

(** The report of a run of the pipeline on the tree [tree] (the walk, the
    tables, the report) in a process that iterates the sets of the
    configuration as [dirs], [cats] and [exts]. *)
Definition run_report (lower : string -> string) (dirs : list string)
  (cats : list (string * list string)) (exts : list string) (tree : entry)
  (start_path : string) (top_n : Z) : string :=
  report_with_catalogue lower (exclusions_list cats dirs) start_path
    (get_file_info lower tree (Some dirs) (Some exts)) top_n.

Section WalkRecords.
Variable lower : string -> string.
Variable keep : string -> bool.
Variable skip_extensions : list string.

(** The records of the files of one directory. *)
Definition file_records (rel : list string) (files : list file)
  : list (list string * file * FileRecord) :=
  flat_map
    (fun f =>
       match scan_file lower skip_extensions rel f with
       | Some r => [(rel, f, r)]
       | None => []
       end) files.

(** The records that the loop makes while the walk goes through [top],
    reached through [rel]. *)
Definition walk_records (rel : list string) (top : entry)
  : list (list string * file * FileRecord) :=
  flat_map (fun item : walk_item => file_records (fst (fst item)) (snd item))
    (os_walk keep rel top).

(** The share of one entry of a directory in the records of that
    directory, and in those of the directories below. *)
Definition own_records (rel : list string) (e : entry)
  : list (list string * file * FileRecord) :=
  match e with
  | File f => file_records rel [f]
  | Dir _ _ => []
  end.

Definition records_below (rel : list string) (e : entry)
  : list (list string * file * FileRecord) :=
  match e with
  | Dir d _ => if keep d then walk_records (rel ++ [d]) e else []
  | File _ => []
  end.

End WalkRecords.

(** The files that a run writes. *)
Definition written (events : list event) : list (string * string) :=
  flat_map
    (fun e => match e with WriteFile p c => [(p, c)] | _ => [] end)
    events.

(** No file of the tree qualifies under the default exclusion rules:
    each one is beneath an excluded directory, or rejected for its name,
    or its size cannot be obtained. *)
Definition no_file_qualifies (lower : string -> string) (tree : entry) : Prop :=
  forall rel f,
    located tree rel f ->
    (exists d, In d rel /\ In d DEFAULT_SKIP_DIRS)
    \/ rejected_by_name lower DEFAULT_SKIP_EXTENSIONS (f_name f)
    \/ f_size f = None.

(** The record that the loop body appends for the file [f] of the
    directory reached through [rel], whose size is [size]. *)
Definition record_of (lower : string -> string) (rel : list string) (f : file)
  (size : Z) : FileRecord :=
  {| path := rel_path rel (f_name f);
     lines := count_lines f;
     size_kb := true_div_1024 size;
     ext := match lower (snd (splitext (f_name f))) with
            | "" => "none"
            | String _ e => e
            end |}.

(** The character [c] occurs in [s]. *)
Definition has_char (c : ascii) (s : string) : Prop :=
  In c (list_ascii_of_string s).

(** An ASCII byte that is no line feed and no carriage return. *)
Definition plain_byte (b : byte) : Prop :=
  (Byte.to_N b < 128 /\ Byte.to_N b <> 10 /\ Byte.to_N b <> 13)%N.

(** The three line terminators, as bytes. *)
Definition line_terminator (term : list byte) : Prop :=
  term = [x0a] \/ term = [x0d; x0a] \/ term = [x0d].

(** The bytes of a file whose lines are [segs], each ended by [term],
    followed by [rest]. *)
Definition terminated_lines (term : list byte) (segs : list (list byte))
  (rest : list byte) : list byte :=
  (concat (map (fun seg => seg ++ term) segs) ++ rest)%list.

(** The order of two records of a table in which [before] orders the
    line counts: the line count of the first is not after that of the
    second, and with equal line counts the first does not have the
    greater path, case ignored. *)
Definition by_lines_then_path (lower : string -> string)
  (before : Z -> Z -> Prop) (a b : FileRecord) : Prop :=
  before (lines a) (lines b)
  /\ (lines a = lines b
      -> String.ltb (lower (path b)) (lower (path a)) = false).

(** Ordered by key, and by [R2] where the keys are equal. *)
Definition key_then {A K : Type} `{PyOrd K} (key : A -> K) (R2 : A -> A -> Prop)
  (a b : A) : Prop :=
  py_le (key a) (key b) /\ (py_le (key b) (key a) -> R2 a b).

(** ** Sample inputs *)

(** A readable file whose bytes are those of [content]. *)
Definition text_file (name content : string) : file :=
  {| f_name := name;
     f_size := Some (Z.of_nat (String.length content));
     f_bytes := Some (list_byte_of_string content) |}.

(** A file that can be measured and not read. *)
Definition unreadable_file (name : string) (size : Z) : file :=
  {| f_name := name; f_size := Some size; f_bytes := None |}.

(** A file that can be read and not measured. *)
Definition unmeasurable_file (name content : string) : file :=
  {| f_name := name; f_size := None;
     f_bytes := Some (list_byte_of_string content) |}.

Definition two_lines : string := "x = 1" ++ nl ++ "y = 2" ++ nl.

Definition c_py : file := text_file "c.py" two_lines.
Definition d_py : file := text_file "d.py" two_lines.
Definition E_PY : file := text_file "E.PY" two_lines.
Definition locked_py : file := unreadable_file "locked.py" 2048.
Definition ghost_py : file := unmeasurable_file "ghost.py" two_lines.
Definition NOTES_TXT : file := text_file "NOTES.TXT" "todo".
Definition Makefile : file := text_file "Makefile" "all:".

(** The tree of the example of the specification, with a few more files. *)
Definition sample_tree : entry :=
  Dir "project"
    [File (text_file "a.py" (two_lines ++ two_lines));
     File (text_file "b.md" "# title");
     Dir "node_modules" [File c_py; Dir "lib" [File d_py]];
     File (text_file "empty.py" "");
     Dir "Node_Modules" [File E_PY];
     File NOTES_TXT;
     File locked_py;
     File ghost_py;
     File Makefile].


(** A world with one directory tree, at [/home/user/project]; relative
    paths are resolved against [/home/user]. *)
Definition world_with (tree : entry) : world :=
  {| getcwd := "/home/user";
     abspath := fun p => if startswith "/" p then p else "/home/user/" ++ p;
     lookup := fun p =>
       if String.eqb p "/home/user/project" then Some tree
       else if String.eqb p "/home/user/notes.txt"
            then Some (File (text_file "notes.txt" "hello"))
            else None;
     open_error := fun _ => None;
     write_error := fun _ _ => None |}.

(** The same world with an output file that cannot be opened. *)
Definition world_read_only (tree : entry) : world :=
  {| getcwd := getcwd (world_with tree);
     abspath := abspath (world_with tree);
     lookup := lookup (world_with tree);
     open_error := fun p => Some ("[Errno 13] Permission denied: '" ++ p ++ "'");
     write_error := fun _ _ => None |}.

(** A file whose name is not valid UTF-8: [caf\xe9.py], the name in
    Latin-1. *)
Definition latin1_py : file :=
  text_file ("caf" ++ String (ascii_of_byte xe9) ".py") two_lines.

Definition latin1_tree : entry := Dir "project" [File latin1_py].

(** Records with three, two and one lines. *)
Definition record_with (p : string) (n : Z) : FileRecord :=
  {| path := p; lines := n; size_kb := 0; ext := "py" |}.

Definition three_records : list FileRecord :=
  [record_with "a.py" 3; record_with "b.py" 2; record_with "c.py" 1].

(** The configuration with every set in the reverse order. *)
Definition reversed_categories : list (string * list string) :=
  map (fun c => (fst c, rev (snd c))) DEFAULT_SKIP_EXTENSIONS_BY_CATEGORY.

(** The record of a file without extension. *)
Definition makefile_record : FileRecord :=
  {| path := "Makefile"; lines := 1234; size_kb := 768 # 1024; ext := "none" |}.

(** Two files whose names differ in case only, in a directory that lists
    them in one order or the other. *)
Definition upper_A_py : file := text_file "A.py" two_lines.
Definition lower_a_py : file := text_file "a.py" two_lines.
Definition case_tree : entry := Dir "pkg" [File upper_A_py; File lower_a_py].
Definition case_tree' : entry := Dir "pkg" [File lower_a_py; File upper_A_py].

(** A tree with every listing in the reverse order. *)
Fixpoint reversed (e : entry) : entry :=
  match e with
  | File f => File f
  | Dir name es => Dir name (rev (map reversed es))
  end.

(** The strings of a list are pairwise distinct. *)
Fixpoint distinct (l : list string) : bool :=
  match l with
  | [] => true
  | x :: l' => negb (mem x l') && distinct l'
  end.

(** * Properties *)

(** ** The order on keys *)

Lemma string_compare_refl (s : string) : (s ?= s)%string = Eq.
Proof.
  induction s as [|c s IH]; simpl; [reflexivity|].
  unfold Ascii.compare. now rewrite N.compare_refl.
Qed.

Lemma string_compare_lt_trans (a b c : string) :
  (a ?= b)%string = Lt -> (b ?= c)%string = Lt -> (a ?= c)%string = Lt.
Proof.
  revert b c.
  induction a as [|x a IH]; intros [|y b] [|z c]; simpl; try discriminate; auto.
  unfold Ascii.compare.
  destruct (N.compare_spec (N_of_ascii x) (N_of_ascii y)) as [Exy|Lxy|Gxy];
    try discriminate;
    destruct (N.compare_spec (N_of_ascii y) (N_of_ascii z)) as [Eyz|Lyz|Gyz];
    try discriminate; intros Hab Hbc.
  - rewrite Exy, Eyz, N.compare_refl. eauto.
  - rewrite Exy. now apply N.compare_lt_iff in Lyz; rewrite Lyz.
  - rewrite <- Eyz. now apply N.compare_lt_iff in Lxy; rewrite Lxy.
  - assert (H : (N_of_ascii x < N_of_ascii z)%N) by (etransitivity; eauto).
    now apply N.compare_lt_iff in H; rewrite H.
Qed.

Lemma string_ltb_lt (a b : string) :
  String.ltb a b = true <-> (a ?= b)%string = Lt.
Proof. unfold String.ltb. destruct (a ?= b)%string; intuition discriminate. Qed.

#[export] Instance PyOrdLaws_int : PyOrdLaws Z.
Proof.
  split; simpl.
  - apply Z.eqb_eq.
  - apply Z.ltb_irrefl.
  - intros a b c. rewrite !Z.ltb_lt. lia.
  - intros a b. rewrite !Z.ltb_ge. lia.
Qed.

#[export] Instance PyOrdLaws_str : PyOrdLaws string.
Proof.
  split; simpl.
  - apply String.eqb_eq.
  - intros a. unfold String.ltb. now rewrite string_compare_refl.
  - intros a b c. rewrite !string_ltb_lt. apply string_compare_lt_trans.
  - intros a b. unfold String.ltb. rewrite (String.compare_antisym b a).
    destruct (a ?= b)%string eqn:E; simpl; try discriminate.
    intros _ _. now apply String.compare_eq_iff.
Qed.

#[export] Instance PyOrdLaws_tuple {A B : Type} `{PyOrdLaws A} `{PyOrdLaws B} :
  PyOrdLaws (A * B).
Proof.
  split; simpl.
  - intros [a1 b1] [a2 b2]; simpl. rewrite andb_true_iff, !py_eq_spec.
    split; [intros [-> ->]; reflexivity | intros [= -> ->]; auto].
  - intros [a b]; simpl.
    destruct (py_eq a a) eqn:E; [apply py_lt_irrefl|].
    assert (py_eq a a = true) by now apply py_eq_spec. congruence.
  - intros [a1 b1] [a2 b2] [a3 b3]; simpl.
    destruct (py_eq a1 a2) eqn:E12; destruct (py_eq a2 a3) eqn:E23;
      try (apply py_eq_spec in E12; subst a2);
      try (apply py_eq_spec in E23; subst a3).
    + assert (E : py_eq a1 a1 = true) by now apply py_eq_spec.
      rewrite E. apply py_lt_trans.
    + rewrite E23. auto.
    + rewrite E12. auto.
    + intros L12 L23. pose proof (py_lt_trans _ _ _ L12 L23) as L13.
      destruct (py_eq a1 a3) eqn:E13; [|exact L13].
      apply py_eq_spec in E13; subst a3. now rewrite py_lt_irrefl in L13.
  - intros [a1 b1] [a2 b2]; simpl.
    destruct (py_eq a1 a2) eqn:E12.
    + apply py_eq_spec in E12; subst a2.
      assert (E : py_eq a1 a1 = true) by now apply py_eq_spec.
      rewrite E. intros L1 L2. f_equal. now apply py_lt_total.
    + destruct (py_eq a2 a1) eqn:E21.
      * apply py_eq_spec in E21; subst a2.
        assert (E : py_eq a1 a1 = true) by now apply py_eq_spec. congruence.
      * intros L1 L2. pose proof (py_lt_total _ _ L1 L2) as ->.
        assert (E : py_eq a2 a2 = true) by now apply py_eq_spec. congruence.
Qed.

Lemma py_lt_asym {K : Type} `{PyOrdLaws K} (a b : K) :
  py_lt a b = true -> py_lt b a = false.
Proof.
  intros L. destruct (py_lt b a) eqn:E; [|reflexivity].
  pose proof (py_lt_trans _ _ _ L E) as C. now rewrite py_lt_irrefl in C.
Qed.

Lemma py_le_trans {K : Type} `{PyOrdLaws K} (a b c : K) :
  py_le a b -> py_le b c -> py_le a c.
Proof.
  unfold py_le. intros Hab Hbc.
  destruct (py_lt c a) eqn:Hca; [|reflexivity].
  destruct (py_lt b c) eqn:Hlt.
  - pose proof (py_lt_trans _ _ _ Hlt Hca). congruence.
  - pose proof (py_lt_total _ _ Hlt Hbc) as ->. congruence.
Qed.

(** ** [sorted] *)

Section SortedFacts.
Context {A K : Type} `{PyOrdLaws K}.
Variable key : A -> K.

Lemma insert_sorted_perm (x : A) (l : list A) :
  Permutation (insert_sorted key x l) (x :: l).
Proof.
  induction l as [|y l IH]; simpl; [reflexivity|].
  destruct (py_lt (key y) (key x)); [|reflexivity].
  rewrite IH. apply perm_swap.
Qed.

Lemma sorted_perm (l : list A) : Permutation (sorted key l) l.
Proof.
  induction l as [|x l IH]; simpl; [reflexivity|].
  rewrite insert_sorted_perm. now constructor.
Qed.

Lemma sorted_reverse_perm (l : list A) : Permutation (sorted_reverse key l) l.
Proof.
  unfold sorted_reverse.
  rewrite <- Permutation_rev, sorted_perm, <- Permutation_rev. reflexivity.
Qed.

Lemma insert_sorted_ascending (x : A) (l : list A) :
  StronglySorted (ascending key) l -> StronglySorted (ascending key) (insert_sorted key x l).
Proof.
  induction 1 as [|y l Hl IH Hy]; simpl.
  - repeat constructor.
  - destruct (py_lt (key y) (key x)) eqn:E.
    + constructor; [exact IH|].
      eapply Permutation_Forall; [symmetry; apply insert_sorted_perm|].
      constructor; [|exact Hy].
      unfold ascending, py_le. now apply py_lt_asym.
    + constructor; [now constructor|].
      constructor; [exact E|].
      eapply Forall_impl; [|exact Hy].
      intros z Hz. unfold ascending in *. eapply py_le_trans; eauto.
Qed.

Lemma sorted_ascending (l : list A) : StronglySorted (ascending key) (sorted key l).
Proof.
  induction l as [|x l IH]; simpl; [constructor|].
  now apply insert_sorted_ascending.
Qed.

Lemma StronglySorted_app_inv {B : Type} (R : B -> B -> Prop) (l1 l2 : list B) :
  StronglySorted R (l1 ++ l2) ->
  StronglySorted R l1 /\ StronglySorted R l2
  /\ Forall (fun a => Forall (R a) l2) l1.
Proof.
  induction l1 as [|a l1 IH]; simpl; intros Hs.
  - repeat split; [constructor|exact Hs|constructor].
  - apply StronglySorted_inv in Hs. destruct Hs as [Hs Ha].
    destruct (IH Hs) as (H1 & H2 & H3).
    apply Forall_app in Ha. destruct Ha as [Ha1 Ha2].
    repeat split; [now constructor|exact H2|now constructor].
Qed.

Lemma StronglySorted_app {B : Type} (R : B -> B -> Prop) (l1 l2 : list B) :
  StronglySorted R l1 -> StronglySorted R l2 ->
  Forall (fun a => Forall (R a) l2) l1 ->
  StronglySorted R (l1 ++ l2).
Proof.
  induction 1 as [|a l1 Hl IH Ha]; simpl; intros H2 H12; [exact H2|].
  inversion H12; subst.
  constructor; [now apply IH|]. apply Forall_app. now split.
Qed.

Lemma StronglySorted_rev {B : Type} (R : B -> B -> Prop) (l : list B) :
  StronglySorted R l -> StronglySorted (fun a b => R b a) (rev l).
Proof.
  induction 1 as [|a l Hl IH Ha]; simpl; [constructor|].
  apply StronglySorted_app; [exact IH|repeat constructor|].
  apply Forall_rev. eapply Forall_impl; [|exact Ha].
  intros b Hb. now repeat constructor.
Qed.

Lemma sorted_reverse_descending (l : list A) :
  StronglySorted (descending key) (sorted_reverse key l).
Proof.
  unfold sorted_reverse.
  apply (StronglySorted_rev (ascending key)). apply sorted_ascending.
Qed.

(** Stability: the elements that share a key keep their input order. *)
Lemma insert_sorted_filter (k : K) (x : A) (l : list A) :
  filter (fun a => py_eq (key a) k) (insert_sorted key x l)
  = filter (fun a => py_eq (key a) k) (x :: l).
Proof.
  induction l as [|y l IH]; [reflexivity|].
  cbn [insert_sorted]. destruct (py_lt (key y) (key x)) eqn:E; [|reflexivity].
  cbn [filter] in *. rewrite IH.
  destruct (py_eq (key x) k) eqn:Ex; [|reflexivity].
  destruct (py_eq (key y) k) eqn:Ey; [|reflexivity].
  apply py_eq_spec in Ex, Ey. rewrite Ex, Ey in E.
  now rewrite py_lt_irrefl in E.
Qed.

Lemma sorted_stable (k : K) (l : list A) :
  filter (fun a => py_eq (key a) k) (sorted key l)
  = filter (fun a => py_eq (key a) k) l.
Proof.
  induction l as [|x l IH]; [reflexivity|].
  cbn [sorted]. rewrite insert_sorted_filter. cbn [filter]. now rewrite IH.
Qed.

Lemma filter_rev {B : Type} (p : B -> bool) (l : list B) :
  filter p (rev l) = rev (filter p l).
Proof.
  induction l as [|x l IH]; [reflexivity|].
  simpl. rewrite filter_app, IH. simpl.
  destruct (p x); simpl; [reflexivity|now rewrite app_nil_r].
Qed.

Lemma sorted_reverse_stable (k : K) (l : list A) :
  filter (fun a => py_eq (key a) k) (sorted_reverse key l)
  = filter (fun a => py_eq (key a) k) l.
Proof.
  unfold sorted_reverse.
  now rewrite filter_rev, sorted_stable, filter_rev, rev_involutive.
Qed.

(** A list sorted by pairwise distinct keys is determined by its elements. *)
Lemma ascending_perm_unique (l1 l2 : list A) :
  Permutation l1 l2 -> NoDup (map key l1) ->
  StronglySorted (ascending key) l1 -> StronglySorted (ascending key) l2 -> l1 = l2.
Proof.
  revert l2. induction l1 as [|a l1 IH]; intros l2 Hp Hnd H1 H2.
  - apply Permutation_nil in Hp. now subst.
  - destruct l2 as [|b l2]; [symmetry in Hp; now apply Permutation_nil in Hp|].
    apply StronglySorted_inv in H1. destruct H1 as [H1 Ha].
    apply StronglySorted_inv in H2. destruct H2 as [H2 Hb].
    inversion Hnd as [|? ? Hna Hnd']; subst.
    assert (Hab : a = b).
    { assert (Ia : In a (b :: l2)) by (eapply Permutation_in; [exact Hp|now left]).
      assert (Ib : In b (a :: l1))
        by (eapply Permutation_in; [symmetry; exact Hp|now left]).
      destruct Ia as [->|Ia]; [reflexivity|].
      destruct Ib as [->|Ib]; [reflexivity|].
      rewrite Forall_forall in Ha, Hb.
      pose proof (Ha _ Ib) as Lab. pose proof (Hb _ Ia) as Lba.
      unfold ascending, py_le in *.
      pose proof (py_lt_total _ _ Lba Lab) as Ek.
      exfalso. apply Hna. rewrite Ek. now apply in_map. }
    subst b. f_equal. apply IH; auto.
    now apply Permutation_cons_inv in Hp.
Qed.

Lemma sorted_perm_unique (l1 l2 : list A) :
  Permutation l1 l2 -> NoDup (map key l1) -> sorted key l1 = sorted key l2.
Proof.
  intros Hp Hnd. apply ascending_perm_unique.
  - now rewrite !sorted_perm.
  - eapply Permutation_NoDup; [|exact Hnd].
    apply Permutation_map. symmetry. apply sorted_perm.
  - apply sorted_ascending.
  - apply sorted_ascending.
Qed.

End SortedFacts.

(** ** The full listing *)

Lemma StronglySorted_impl {B : Type} (R S : B -> B -> Prop) (l : list B) :
  (forall a b, R a b -> S a b) -> StronglySorted R l -> StronglySorted S l.
Proof.
  intros HRS. induction 1 as [|a l Hl IH Ha]; constructor; auto.
  eapply Forall_impl; [|exact Ha]. auto.
Qed.

Lemma full_key_listing_order (lower : string -> string) (a b : FileRecord) :
  ascending (fun x => (- lines x, lower (path x))) a b -> listing_order lower a b.
Proof.
  unfold ascending, py_le, listing_order. simpl.
  destruct (Z.eqb_spec (- lines b) (- lines a)) as [E|N].
  - intros L. right. split; [lia|exact L].
  - rewrite Z.ltb_ge. intros L. left. lia.
Qed.

(** C4. The full listing that [generate_markdown_table] renders holds the
    records of its input, one row each, ordered by line count,
    descending; records with equal line counts are ordered by their
    paths compared without regard to case, ascending. *)
Theorem full_listing_sorted (lower : string -> string)
  (file_info : list FileRecord) :
  exists listing : list FileRecord,
    Permutation listing file_info
    /\ StronglySorted (listing_order lower) listing
    /\ generate_markdown_table lower file_info
       = match file_info with
         | [] => no_files
         | _ =>
             join nl
               ("| File | Extension | Lines | Size (KB) |"
                :: "|------|-----------|-------|-----------|"
                :: map markdown_row listing)
         end.
Proof.
  exists (sort_full_listing lower file_info). split; [|split].
  - apply sorted_perm.
  - eapply StronglySorted_impl; [apply full_key_listing_order|].
    apply sorted_ascending.
  - destruct file_info; reflexivity.
Qed.

(** ** The largest and the smallest files *)

Lemma slice_to_nat {B : Type} (l : list B) (n : nat) :
  slice_to l (Z.of_nat n) = firstn n l.
Proof.
  unfold slice_to. destruct (Z.ltb_spec (Z.of_nat n) 0); [lia|].
  now rewrite Nat2Z.id.
Qed.

(** A negative bound leaves out that many elements at the end. *)
Lemma slice_to_negative {B : Type} (l : list B) (n : Z) :
  n < 0 -> slice_to l n = firstn (length l - Z.to_nat (- n)) l.
Proof.
  intros Hn. unfold slice_to. destruct (Z.ltb_spec n 0); [|lia].
  f_equal. lia.
Qed.

Lemma firstn_incl {B : Type} (k : nat) (l : list B) (x : B) :
  In x (firstn k l) -> In x l.
Proof.
  intros Hx. rewrite <- (firstn_skipn k l). apply in_or_app. now left.
Qed.

Lemma slice_to_incl {B : Type} (l : list B) (n : Z) (x : B) :
  In x (slice_to l n) -> In x l.
Proof. unfold slice_to. destruct (n <? 0); apply firstn_incl. Qed.

Lemma non_empty_files_positive (file_info : list FileRecord) (r : FileRecord) :
  In r (non_empty_files file_info) -> 0 < lines r.
Proof.
  unfold non_empty_files. rewrite filter_In, Z.ltb_lt. tauto.
Qed.

(** ** Counting lines *)

Lemma sum_ones {B : Type} (l : list B) :
  fold_right Z.add 0 (map (fun _ => 1) l) = Z.of_nat (length l).
Proof.
  induction l as [|x l IH]; [reflexivity|].
  cbn [map fold_right length]. rewrite IH, Nat2Z.inj_succ. lia.
Qed.

Lemma text_ind2 (P : text -> Prop) :
  P [] -> (forall c, P [c]) ->
  (forall c c' r, P r -> P (c' :: r) -> P (c :: c' :: r)) ->
  forall t, P t.
Proof.
  intros H0 H1 H2 t.
  enough (P t /\ forall c, P (c :: t)) by tauto.
  induction t as [|c' r [IH1 IH2]]; split; auto.
Qed.

(** The lines of a text in which line feeds alone end lines. *)
Lemma iter_lines_length (u cur : text) :
  Z.of_nat (length (iter_lines cur u))
  = Z.of_nat (count_occ N.eq_dec u 10%N)
    + match u with
      | [] => match cur with [] => 0 | _ => 1 end
      | _ => if (last u 10 =? 10)%N then 0 else 1
      end.
Proof.
  revert cur. induction u as [|c r IH]; intros cur.
  - destruct cur; reflexivity.
  - cbn [iter_lines count_occ].
    destruct (N.eqb_spec c 10) as [->|Hc].
    + destruct (N.eq_dec 10 10) as [_|C]; [|congruence].
      cbn [length]. rewrite Nat2Z.inj_succ, IH.
      destruct r as [|c' r']; [reflexivity|].
      change (last (10%N :: c' :: r') 10%N) with (last (c' :: r') 10%N). lia.
    + destruct (N.eq_dec c 10) as [C|_]; [congruence|].
      rewrite IH. destruct r as [|c' r'].
      * simpl. destruct (N.eqb_spec c 10); [congruence|reflexivity].
      * change (last (c :: c' :: r') 10%N) with (last (c' :: r') 10%N). lia.
Qed.

Lemma ends_line_10 (rest : text) : ends_line 10 rest = true.
Proof. reflexivity. Qed.

Lemma ends_line_13 (rest : text) :
  ends_line 13 rest
  = negb match rest with c' :: _ => (c' =? 10)%N | [] => false end.
Proof. reflexivity. Qed.

Lemma ends_line_other (c : N) (rest : text) :
  c <> 10%N -> c <> 13%N -> ends_line c rest = false.
Proof.
  intros H10 H13. unfold ends_line.
  destruct (N.eqb_spec c 10); [congruence|].
  destruct (N.eqb_spec c 13); [congruence|reflexivity].
Qed.

Lemma count_occ_10_cons (c : N) (u : text) :
  Z.of_nat (count_occ N.eq_dec (c :: u) 10%N)
  = (if (c =? 10)%N then 1 else 0) + Z.of_nat (count_occ N.eq_dec u 10%N).
Proof.
  cbn [count_occ]. destruct (N.eq_dec c 10) as [->|Hc].
  - rewrite Nat2Z.inj_succ. change ((10 =? 10)%N) with true. lia.
  - destruct (N.eqb_spec c 10); [congruence|]. lia.
Qed.

Lemma translate_newlines_other (c : N) (r : text) :
  c <> 13%N -> translate_newlines (c :: r) = c :: translate_newlines r.
Proof.
  intros Hc. cbn [translate_newlines].
  destruct (N.eqb_spec c 13); [congruence|reflexivity].
Qed.

Lemma translate_newlines_crlf (r : text) :
  translate_newlines (13%N :: 10%N :: r) = 10%N :: translate_newlines r.
Proof. reflexivity. Qed.

Lemma translate_newlines_cr (c' : N) (r : text) :
  c' <> 10%N ->
  translate_newlines (13%N :: c' :: r) = 10%N :: translate_newlines (c' :: r).
Proof.
  intros Hc. change (translate_newlines (13%N :: c' :: r))
    with (if (c' =? 10)%N then 10%N :: translate_newlines r
          else 10%N :: translate_newlines (c' :: r)).
  destruct (N.eqb_spec c' 10); [congruence|reflexivity].
Qed.

Lemma translate_newlines_count (t : text) :
  Z.of_nat (count_occ N.eq_dec (translate_newlines t) 10%N) = line_terminators t.
Proof.
  induction t as [| c | c c' r IHr IHc'] using text_ind2.
  - reflexivity.
  - cbn [translate_newlines line_terminators].
    destruct (N.eqb_spec c 13) as [->|H13]; [reflexivity|].
    rewrite count_occ_10_cons. unfold ends_line.
    destruct (N.eqb_spec c 10); [reflexivity|].
    destruct (N.eqb_spec c 13); [congruence|reflexivity].
  - change (line_terminators (c :: c' :: r))
      with ((if ends_line c (c' :: r) then 1 else 0) + line_terminators (c' :: r)).
    destruct (N.eq_dec c 13) as [->|H13].
    + rewrite ends_line_13.
      destruct (N.eq_dec c' 10) as [->|H10].
      * rewrite translate_newlines_crlf, count_occ_10_cons, IHr.
        cbn [line_terminators]. rewrite ends_line_10. cbn. lia.
      * rewrite translate_newlines_cr, count_occ_10_cons, IHc' by assumption.
        destruct (N.eqb_spec c' 10); [congruence|]. cbn. lia.
    + rewrite translate_newlines_other, count_occ_10_cons, IHc' by assumption.
      destruct (N.eqb_spec c 10) as [->|H10].
      * now rewrite ends_line_10.
      * now rewrite (ends_line_other c) by assumption.
Qed.

Lemma translate_newlines_nil (t : text) :
  translate_newlines t = [] -> t = [].
Proof.
  destruct t as [|c r]; [reflexivity|]. cbn.
  destruct (c =? 13)%N; [|discriminate].
  destruct r as [|c' r']; [discriminate|]. destruct (c' =? 10)%N; discriminate.
Qed.

Lemma last_cons_cons {B : Type} (a b : B) (l : list B) (d : B) :
  last (a :: b :: l) d = last (b :: l) d.
Proof. reflexivity. Qed.

Lemma last_cons_nonempty {B : Type} (a : B) (l : list B) (d : B) :
  l <> [] -> last (a :: l) d = last l d.
Proof. destruct l; [congruence|reflexivity]. Qed.

Lemma translate_newlines_last (t : text) :
  t <> [] ->
  (last (translate_newlines t) 10 =? 10)%N
  = ((last t 10 =? 10) || (last t 10 =? 13))%N.
Proof.
  assert (Hne : forall u : text, u <> [] -> translate_newlines u <> []).
  { intros u Hu E. now apply translate_newlines_nil in E. }
  induction t as [| c | c c' r IHr IHc'] using text_ind2; intros Hnn.
  - congruence.
  - cbn. destruct (N.eqb_spec c 13) as [->|H13]; [reflexivity|].
    cbn. now rewrite orb_false_r.
  - rewrite last_cons_cons.
    destruct (N.eq_dec c 13) as [->|H13].
    + destruct (N.eq_dec c' 10) as [->|H10].
      * rewrite translate_newlines_crlf.
        destruct r as [|c2 r2]; [reflexivity|].
        rewrite last_cons_cons, last_cons_nonempty by (apply Hne; discriminate).
        apply IHr. discriminate.
      * rewrite translate_newlines_cr by assumption.
        rewrite last_cons_nonempty by (apply Hne; discriminate).
        apply IHc'. discriminate.
    + rewrite translate_newlines_other by assumption.
      rewrite last_cons_nonempty by (apply Hne; discriminate).
      apply IHc'. discriminate.
Qed.

(** The lines that iterating over a text file yields. *)
Lemma text_lines_length (t : text) :
  Z.of_nat (length (iter_lines [] (translate_newlines t)))
  = line_terminators t + (if unterminated_tail t then 1 else 0).
Proof.
  rewrite iter_lines_length, translate_newlines_count. f_equal.
  destruct t as [|c r]; [reflexivity|].
  destruct (translate_newlines (c :: r)) as [|x xs] eqn:E.
  { apply translate_newlines_nil in E. discriminate. }
  rewrite <- E. unfold unterminated_tail.
  rewrite translate_newlines_last by discriminate.
  now destruct ((last (c :: r) 10 =? 10) || (last (c :: r) 10 =? 13))%N.
Qed.

(** C2, amended.  [count_lines] returns 0 when the file cannot be opened
    or read.  Otherwise the bytes are decoded with the invalid sequences
    left out, and it returns the number of line terminators of the text
    (a line feed, a carriage return, or a carriage return and the line
    feed that follows it), plus one when characters follow the last
    terminator: a last segment that no terminator ends is a line too. *)
Theorem count_lines_spec (f : file) :
  count_lines f
  = match f_bytes f with
    | None => 0
    | Some bs =>
        let t := decode_utf8_ignore bs in
        line_terminators t + (if unterminated_tail t then 1 else 0)
    end.
Proof.
  unfold count_lines, open_lines. destruct (f_bytes f) as [bs|]; [|reflexivity].
  cbv zeta. rewrite sum_ones. apply text_lines_length.
Qed.

(** A file of one line that no terminator ends: a segment, and no
    line-terminated one, that [count_lines] counts. *)
Lemma count_lines_counts_last_segment :
  count_lines (text_file "one.py" "x = 1") = 1
  /\ line_terminators (decode_utf8_ignore (list_byte_of_string "x = 1")) = 0.
Proof. split; reflexivity. Qed.

(** A carriage return and a line feed that an invalid byte separates in
    the file are one terminator in the text. *)
Example count_lines_ignores_invalid_bytes :
  count_lines {| f_name := "x"; f_size := None;
                 f_bytes := Some [x61; x0d; xff; x0a; x62; x0a] |} = 2
  /\ count_lines {| f_name := "x"; f_size := None;
                    f_bytes := Some [x61; x0d; xc3; xa9; x0a; x62; x0a] |} = 3.
Proof. split; reflexivity. Qed.

(** Valid sequences decode to their code points; invalid ones leave
    nothing. *)
Example decode_utf8_ignore_examples :
  decode_utf8_ignore [xe2; x82; xac; xf0; x9f; x98; x80] = [8364%N; 128512%N]
  /\ decode_utf8_ignore [xed; xa0; x80; x41; xc0; x80; xf4; x90; x80; x80] = [65%N]
  /\ decode_utf8_ignore [x41; xe2; x82; x42; xe2; x82] = [65%N; 66%N].
Proof. repeat split; reflexivity. Qed.

(** ASCII bytes decode to themselves. *)
Lemma decode_utf8_ignore_ascii (bs : list byte) :
  Forall (fun b => (Byte.to_N b < 128)%N) bs ->
  decode_utf8_ignore bs = map Byte.to_N bs.
Proof.
  induction 1 as [|b bs Hb _ IH]; [reflexivity|].
  cbn [decode_utf8_ignore map].
  destruct (N.ltb_spec (Byte.to_N b) 128); [now rewrite IH|lia].
Qed.

(** ** The walk *)

Lemma entry_induction (P : entry -> Prop) :
  (forall f, P (File f)) ->
  (forall name es, Forall P es -> P (Dir name es)) ->
  forall e, P e.
Proof.
  intros Hf Hd. fix IH 1. intros [f|name es]; [apply Hf|].
  apply Hd. induction es as [|e es IHes]; constructor; [apply IH|exact IHes].
Qed.

Lemma mem_In (x : string) (s : list string) : mem x s = true <-> In x s.
Proof.
  unfold mem. rewrite existsb_exists. split.
  - intros (y & Hy & E). apply String.eqb_eq in E. now subst.
  - intros Hx. exists x. split; [exact Hx|apply String.eqb_refl].
Qed.

Lemma mem_false (x : string) (s : list string) : mem x s = false <-> ~ In x s.
Proof.
  rewrite <- mem_In. destruct (mem x s); split; congruence.
Qed.

Lemma files_of_In (f : file) (es : list entry) :
  In f (files_of es) <-> In (File f) es.
Proof.
  unfold files_of. rewrite in_flat_map. split.
  - intros ([g|d sub] & He & Hf); simpl in Hf; [|tauto].
    destruct Hf as [->|[]]. exact He.
  - intros He. exists (File f). split; [exact He|now left].
Qed.

(** Every file the walk yields is in the tree, beneath directories that
    [keep] accepts only. *)
Lemma os_walk_sound (keep : string -> bool) (top : entry) :
  forall rel rel' dirs files f,
    In (rel', dirs, files) (os_walk keep rel top) -> In f files ->
    exists ds, rel' = (rel ++ ds)%list /\ located top ds f
               /\ Forall (fun d => keep d = true) ds.
Proof.
  induction top as [g|name es IH] using entry_induction;
    intros rel rel' dirs files f Hin Hf; [contradiction|].
  cbn [os_walk] in Hin. destruct Hin as [E|Hin].
  - injection E as <- _ <-. exists []. rewrite app_nil_r.
    repeat split; [|constructor]. constructor. now apply files_of_In.
  - apply in_flat_map in Hin. destruct Hin as (e & He & Hin).
    rewrite Forall_forall in IH. specialize (IH e He).
    destruct e as [g|d sub]; [contradiction|].
    destruct (keep d) eqn:Hk; [|contradiction].
    destruct (IH _ _ _ _ _ Hin Hf) as (ds & -> & Hloc & Hall).
    exists (d :: ds). rewrite <- app_assoc. repeat split.
    + econstructor; eauto.
    + now constructor.
Qed.

(** The walk yields every file that is beneath directories that [keep]
    accepts only. *)
Lemma os_walk_complete (keep : string -> bool) (top : entry)
  (ds : list string) (f : file) :
  located top ds f -> Forall (fun d => keep d = true) ds ->
  forall rel, exists dirs files,
    In ((rel ++ ds)%list, dirs, files) (os_walk keep rel top) /\ In f files.
Proof.
  induction 1 as [name es f Hf|name es d sub ds f Hd Hloc IH];
    intros Hall rel.
  - exists (filter keep (dir_names es)), (files_of es).
    rewrite app_nil_r. split; [now left|now apply files_of_In].
  - inversion Hall as [|? ? Hk Hall']; subst.
    destruct (IH Hall' (rel ++ [d])%list) as (dirs & files & Hin & Hfin).
    exists dirs, files. split; [|exact Hfin].
    cbn [os_walk]. right. apply in_flat_map.
    exists (Dir d sub). split; [exact Hd|].
    rewrite Hk. now rewrite <- app_assoc in Hin.
Qed.

(** The walk tests the names of the directories it meets below
    [startpath]; the name of [startpath] itself plays no part. *)
Lemma os_walk_root_name (keep : string -> bool) (rel : list string)
  (name name' : string) (es : list entry) :
  os_walk keep rel (Dir name es) = os_walk keep rel (Dir name' es).
Proof. reflexivity. Qed.

Section ScanFacts.
Variable lower : string -> string.
Variables skip_dirs skip_extensions : list string.

(** A record of the scan was made for a file of the tree that is beneath
    no excluded directory. *)
Lemma scan_sound (top : entry) (rel : list string) (f : file) (r : FileRecord) :
  In (rel, f, r) (scan lower skip_dirs skip_extensions top) ->
  located top rel f
  /\ (forall d, In d rel -> ~ In d skip_dirs)
  /\ scan_file lower skip_extensions rel f = Some r.
Proof.
  unfold scan. rewrite in_flat_map. intros ([[rel' dirs] files] & Hw & Hin).
  apply in_flat_map in Hin. destruct Hin as (g & Hg & Hin).
  destruct (scan_file lower skip_extensions rel' g) as [r'|] eqn:Hs;
    [|contradiction].
  destruct Hin as [E|[]]. injection E as -> -> ->.
  destruct (os_walk_sound _ _ _ _ _ _ _ Hw Hg) as (ds & E & Hloc & Hall).
  cbn in E. subst ds. repeat split; auto.
  intros d Hd. rewrite Forall_forall in Hall. specialize (Hall d Hd).
  apply negb_true_iff in Hall. now apply mem_false.
Qed.

(** The scan has a record for every file beneath no excluded directory
    for which the loop body makes one. *)
Lemma scan_complete (top : entry) (rel : list string) (f : file) (r : FileRecord) :
  located top rel f ->
  (forall d, In d rel -> ~ In d skip_dirs) ->
  scan_file lower skip_extensions rel f = Some r ->
  In (rel, f, r) (scan lower skip_dirs skip_extensions top).
Proof.
  intros Hloc Hall Hs.
  destruct (os_walk_complete (fun d => negb (mem d skip_dirs)) top rel f Hloc)
    with (rel := @nil string) as (dirs & files & Hw & Hf).
  { apply Forall_forall. intros d Hd. apply negb_true_iff, mem_false. auto. }
  unfold scan. apply in_flat_map. exists (rel, dirs, files).
  split; [exact Hw|]. apply in_flat_map. exists f. split; [exact Hf|].
  rewrite Hs. now left.
Qed.

End ScanFacts.

(** The records that [get_file_info] returns are those of the scan. *)
Lemma get_file_info_In (lower : string -> string) (top : entry)
  (skip_dirs skip_extensions : option (list string)) (r : FileRecord) :
  In r (get_file_info lower top skip_dirs skip_extensions)
  <-> exists rel f,
        In (rel, f, r)
          (scan lower (skip_dirs_of skip_dirs)
             (skip_extensions_of skip_extensions) top).
Proof.
  unfold get_file_info. fold (skip_dirs_of skip_dirs).
  fold (skip_extensions_of skip_extensions). split.
  - intros Hr. eapply Permutation_in in Hr; [|apply sorted_perm].
    apply in_map_iff in Hr. destruct Hr as ([[rel f] r'] & E & Hin).
    simpl in E. subst r'. eauto.
  - intros (rel & f & Hin).
    eapply Permutation_in; [symmetry; apply sorted_perm|].
    apply in_map_iff. exists (rel, f, r). auto.
Qed.

(** ** The loop body *)

Section ScanFile.
Variable lower : string -> string.
Variable skip_extensions : list string.

Lemma scan_file_none (rel : list string) (f : file) :
  scan_file lower skip_extensions rel f = None
  <-> rejected_by_name lower skip_extensions (f_name f) \/ f_size f = None.
Proof.
  unfold scan_file, rejected_by_name.
  destruct (startswith "." (f_name f)) eqn:Hdot; cbn [orb].
  { intuition. }
  destruct (String.eqb_spec (f_name f) "desktop.ini") as [Hd|Hd]; cbn [orb].
  { intuition. }
  destruct (String.eqb_spec (f_name f) "__init__.py") as [Hi|Hi]; cbn [orb].
  { intuition. }
  destruct (mem (lower (snd (splitext (f_name f)))) skip_extensions) eqn:Hm.
  { apply mem_In in Hm. intuition. }
  apply mem_false in Hm.
  destruct (f_size f) as [size|]; [|intuition].
  split; [discriminate|]. intros [[C|[C|[C|C]]]|C]; congruence || tauto.
Qed.

Lemma scan_file_some (rel : list string) (f : file) (size : Z) :
  ~ rejected_by_name lower skip_extensions (f_name f) ->
  f_size f = Some size ->
  exists r, scan_file lower skip_extensions rel f = Some r
            /\ path r = rel_path rel (f_name f)
            /\ lines r = count_lines f
            /\ size_kb r = true_div_1024 size.
Proof.
  intros Hrej Hsize.
  destruct (scan_file lower skip_extensions rel f) as [r|] eqn:Hs.
  - exists r. split; [reflexivity|]. revert Hs. unfold scan_file.
    destruct (_ || _ || _); [discriminate|].
    destruct (mem _ _); [discriminate|]. rewrite Hsize.
    intros [= <-]. auto.
  - apply scan_file_none in Hs. destruct Hs as [Hs|Hs]; [tauto|congruence].
Qed.

End ScanFile.

Lemma scan_file_record (lower : string -> string) (skip_extensions : list string)
  (rel : list string) (f : file) (r : FileRecord) :
  scan_file lower skip_extensions rel f = Some r
  <-> ~ rejected_by_name lower skip_extensions (f_name f)
      /\ exists size, f_size f = Some size /\ r = record_of lower rel f size.
Proof.
  split.
  - intros Hs.
    assert (Hnone : scan_file lower skip_extensions rel f <> None) by congruence.
    rewrite scan_file_none in Hnone.
    split; [tauto|].
    destruct (f_size f) as [size|] eqn:Hsize; [|tauto].
    exists size. split; [reflexivity|].
    revert Hs. unfold scan_file, record_of.
    destruct (_ || _ || _); [discriminate|].
    destruct (mem _ _); [discriminate|]. rewrite Hsize. congruence.
  - intros (Hrej & size & Hsize & ->).
    destruct (scan_file lower skip_extensions rel f) as [r|] eqn:Hs.
    + revert Hs. unfold scan_file, record_of.
      destruct (_ || _ || _); [discriminate|].
      destruct (mem _ _); [discriminate|]. rewrite Hsize. congruence.
    + apply scan_file_none in Hs. destruct Hs; [tauto|congruence].
Qed.

Lemma count_lines_unreadable (f : file) : f_bytes f = None -> count_lines f = 0.
Proof. intros Hb. unfold count_lines, open_lines. now rewrite Hb. Qed.

(** C1. No file beneath a directory whose name is in the set of excluded
    directories has a record in the scan, whatever lies between that
    directory and the file; and every record that [get_file_info] returns
    was made for a file of the tree that is beneath no such directory. *)
Theorem excluded_dirs_pruned (lower : string -> string) (top : entry)
  (skip_dirs skip_extensions : option (list string)) :
  (forall rel f d r,
      located top rel f -> In d rel -> In d (skip_dirs_of skip_dirs) ->
      ~ In (rel, f, r)
          (scan lower (skip_dirs_of skip_dirs)
             (skip_extensions_of skip_extensions) top))
  /\ (forall r,
        In r (get_file_info lower top skip_dirs skip_extensions) ->
        exists rel f,
          In (rel, f, r)
            (scan lower (skip_dirs_of skip_dirs)
               (skip_extensions_of skip_extensions) top)
          /\ located top rel f
          /\ forall d, In d rel -> ~ In d (skip_dirs_of skip_dirs)).
Proof.
  split.
  - intros rel f d r _ Hd Hskip Hin.
    apply scan_sound in Hin. destruct Hin as (_ & Hall & _).
    exact (Hall d Hd Hskip).
  - intros r Hr. apply get_file_info_In in Hr.
    destruct Hr as (rel & f & Hin). exists rel, f.
    split; [exact Hin|]. apply scan_sound in Hin. tauto.
Qed.

(** C3. A file that the walk meets and whose name passes the filter has
    no record when its size cannot be obtained; when its size is obtained
    and it cannot be read, it has a record, whose line count is 0. *)
Theorem size_probe_failure_drops (lower : string -> string) (top : entry)
  (skip_dirs skip_extensions : option (list string))
  (rel : list string) (f : file) :
  located top rel f ->
  (forall d, In d rel -> ~ In d (skip_dirs_of skip_dirs)) ->
  ~ rejected_by_name lower (skip_extensions_of skip_extensions) (f_name f) ->
  (f_size f = None ->
   forall r,
     ~ In (rel, f, r)
         (scan lower (skip_dirs_of skip_dirs)
            (skip_extensions_of skip_extensions) top))
  /\ (forall size,
        f_size f = Some size -> f_bytes f = None ->
        exists r,
          In (rel, f, r)
            (scan lower (skip_dirs_of skip_dirs)
               (skip_extensions_of skip_extensions) top)
          /\ In r (get_file_info lower top skip_dirs skip_extensions)
          /\ lines r = 0).
Proof.
  intros Hloc Hall Hname. split.
  - intros Hsize r Hin. apply scan_sound in Hin. destruct Hin as (_ & _ & Hs).
    assert (Hn : scan_file lower (skip_extensions_of skip_extensions) rel f = None)
      by (apply scan_file_none; now right).
    congruence.
  - intros size Hsize Hbytes.
    destruct (scan_file_some lower _ rel f size Hname Hsize)
      as (r & Hs & _ & Hl & _).
    exists r. assert (Hin : In (rel, f, r)
      (scan lower (skip_dirs_of skip_dirs)
         (skip_extensions_of skip_extensions) top))
      by now apply scan_complete.
    repeat split; [exact Hin| |].
    + apply get_file_info_In. eauto.
    + rewrite Hl. now apply count_lines_unreadable.
Qed.


(** C10. Directory names are compared with the excluded names as they
    are: a directory whose name is not in the set is walked even when it
    equals an excluded name up to case, and the files beneath it get
    their records.  A file whose extension equals a lower-case excluded
    extension up to case gets none. *)
Theorem dir_exclusion_case_sensitive (lower : string -> string) (top : entry)
  (skip_dirs skip_extensions : option (list string))
  (rel : list string) (f : file) (r : FileRecord) (d e : string) :
  located top rel f -> In d rel ->
  In e (skip_dirs_of skip_dirs) -> lower d = lower e ->
  (forall x, In x rel -> ~ In x (skip_dirs_of skip_dirs)) ->
  scan_file lower (skip_extensions_of skip_extensions) rel f = Some r ->
  (In (rel, f, r)
     (scan lower (skip_dirs_of skip_dirs)
        (skip_extensions_of skip_extensions) top)
   /\ In r (get_file_info lower top skip_dirs skip_extensions))
  /\ (forall (g : file) (x : string) (rel' : list string),
        In x (skip_extensions_of skip_extensions) -> lower x = x ->
        lower (snd (splitext (f_name g))) = lower x ->
        scan_file lower (skip_extensions_of skip_extensions) rel' g = None).
Proof.
  intros Hloc _ _ _ Hall Hs. split.
  - assert (Hin : In (rel, f, r)
      (scan lower (skip_dirs_of skip_dirs)
         (skip_extensions_of skip_extensions) top))
      by now apply scan_complete.
    split; [exact Hin|]. apply get_file_info_In. eauto.
  - intros g x rel' Hx Hlow E. apply scan_file_none. left.
    unfold rejected_by_name. right. right. right. now rewrite E, Hlow.
Qed.

(** ** The walk on the sample tree *)

Lemma sample_located_d_py : located sample_tree ["node_modules"; "lib"] d_py.
Proof.
  unfold sample_tree.
  eapply located_below with (sub := [File c_py; Dir "lib" [File d_py]]);
    [simpl; tauto|].
  eapply located_below with (sub := [File d_py]); [simpl; tauto|].
  apply located_here. simpl. tauto.
Qed.

Lemma sample_located_E_PY : located sample_tree ["Node_Modules"] E_PY.
Proof.
  unfold sample_tree.
  eapply located_below with (sub := [File E_PY]); [simpl; tauto|].
  apply located_here. simpl. tauto.
Qed.

Lemma sample_located_top (f : file) :
  In (File f)
    match sample_tree with Dir _ es => es | File _ => [] end ->
  located sample_tree [] f.
Proof. intros Hf. unfold sample_tree. now apply located_here. Qed.

Lemma not_rejected_by_computation (name : string) :
  (startswith "." name || String.eqb name "desktop.ini"
   || String.eqb name "__init__.py"
   || mem (ascii_lower (snd (splitext name))) DEFAULT_SKIP_EXTENSIONS) = false ->
  ~ rejected_by_name ascii_lower DEFAULT_SKIP_EXTENSIONS name.
Proof.
  intros Hb [H|[H|[H|H]]].
  - rewrite H in Hb. discriminate.
  - apply String.eqb_eq in H. rewrite H in Hb.
    rewrite orb_true_r in Hb. discriminate.
  - apply String.eqb_eq in H. rewrite H in Hb.
    rewrite !orb_true_r in Hb. discriminate.
  - apply mem_In in H. rewrite H in Hb. rewrite !orb_true_r in Hb. discriminate.
Qed.

Lemma excluded_dirs_pruned_witness :
  located sample_tree ["node_modules"; "lib"] d_py
  /\ forall r,
       ~ In (["node_modules"; "lib"], d_py, r)
           (scan ascii_lower DEFAULT_SKIP_DIRS DEFAULT_SKIP_EXTENSIONS sample_tree).
Proof.
  split; [exact sample_located_d_py|].
  intros r.
  apply (proj1 (excluded_dirs_pruned ascii_lower sample_tree None None)
           ["node_modules"; "lib"] d_py "node_modules" r).
  - exact sample_located_d_py.
  - simpl. tauto.
  - simpl. tauto.
Defined.

Lemma size_probe_failure_drops_witness :
  (forall r,
      ~ In ([], ghost_py, r)
          (scan ascii_lower DEFAULT_SKIP_DIRS DEFAULT_SKIP_EXTENSIONS sample_tree))
  /\ exists r,
       In ([], locked_py, r)
         (scan ascii_lower DEFAULT_SKIP_DIRS DEFAULT_SKIP_EXTENSIONS sample_tree)
       /\ In r (get_file_info ascii_lower sample_tree None None)
       /\ lines r = 0.
Proof.
  split.
  - apply (proj1 (size_probe_failure_drops ascii_lower sample_tree None None
                    [] ghost_py
                    (sample_located_top ghost_py ltac:(simpl; tauto))
                    ltac:(intros d [])
                    (not_rejected_by_computation "ghost.py" eq_refl))).
    reflexivity.
  - apply (proj2 (size_probe_failure_drops ascii_lower sample_tree None None
                    [] locked_py
                    (sample_located_top locked_py ltac:(simpl; tauto))
                    ltac:(intros d [])
                    (not_rejected_by_computation "locked.py" eq_refl))
             2048); reflexivity.
Defined.



Lemma dir_exclusion_case_sensitive_witness :
  In {| path := "Node_Modules/E.PY"; lines := 2; size_kb := 12 # 1024;
        ext := "py" |}
    (get_file_info ascii_lower sample_tree None None)
  /\ scan_file ascii_lower DEFAULT_SKIP_EXTENSIONS []
       (text_file "b.MD" "# title") = None.
Proof.
  pose proof (dir_exclusion_case_sensitive ascii_lower sample_tree None None
                ["Node_Modules"] E_PY
                {| path := "Node_Modules/E.PY"; lines := 2;
                   size_kb := 12 # 1024; ext := "py" |}
                "Node_Modules" "node_modules"
                sample_located_E_PY
                ltac:(simpl; tauto) ltac:(simpl; tauto) eq_refl) as H.
  destruct H as [[_ Hin] Hext].
  - intros x [<-|[]]. apply mem_false. reflexivity.
  - reflexivity.
  - split; [exact Hin|].
    apply (Hext (text_file "b.MD" "# title") ".md" []).
    + apply mem_In. reflexivity.
    + reflexivity.
    + reflexivity.
Defined.

(** ** The command line *)

Lemma in_dec_skip (d : string) (s : list string) : In d s \/ ~ In d s.
Proof.
  destruct (mem d s) eqn:E; [left; now apply mem_In|right; now apply mem_false].
Qed.

Lemma exists_skipped_dec (rel s : list string) :
  (exists d, In d rel /\ In d s) \/ (forall d, In d rel -> ~ In d s).
Proof.
  induction rel as [|x rel [(d & Hd & Hs)|IH]].
  - right. intros d [].
  - left. exists d. split; [now right|exact Hs].
  - destruct (in_dec_skip x s) as [Hx|Hx].
    + left. exists x. split; [now left|exact Hx].
    + right. intros d [<-|Hd]; auto.
Qed.

(** [get_file_info] returns no record exactly when no file qualifies. *)
Lemma get_file_info_nil (lower : string -> string) (tree : entry) :
  get_file_info lower tree None None = [] <-> no_file_qualifies lower tree.
Proof.
  split.
  - intros Hnil rel f Hloc.
    destruct (exists_skipped_dec rel DEFAULT_SKIP_DIRS) as [Hex|Hall];
      [now left|right].
    apply (scan_file_none lower DEFAULT_SKIP_EXTENSIONS rel f).
    destruct (scan_file lower DEFAULT_SKIP_EXTENSIONS rel f) as [r|] eqn:Hs;
      [|reflexivity].
    assert (Hin : In r (get_file_info lower tree None None)).
    { apply get_file_info_In. exists rel, f. now apply scan_complete. }
    rewrite Hnil in Hin. contradiction.
  - intros Hno.
    destruct (get_file_info lower tree None None) as [|r l] eqn:E;
      [reflexivity|exfalso].
    assert (Hin : In r (get_file_info lower tree None None))
      by (rewrite E; now left).
    apply get_file_info_In in Hin. destruct Hin as (rel & f & Hin).
    apply scan_sound in Hin. destruct Hin as (Hloc & Hall & Hs).
    destruct (Hno rel f Hloc) as [(d & Hd & Hskip)|Hrej].
    + exact (Hall d Hd Hskip).
    + apply (scan_file_none lower DEFAULT_SKIP_EXTENSIONS rel f) in Hrej.
      simpl in Hs. congruence.
Qed.




(** ** Number formats *)

Lemma append_assoc (a b c : string) : (a ++ b) ++ c = a ++ b ++ c.
Proof. induction a as [|x a IH]; [reflexivity|]. cbn. now rewrite IH. Qed.

Lemma digit_is_digit (d : Z) : 0 <= d < 10 -> is_digit (digit d) = true.
Proof.
  intros Hd. unfold is_digit, digit.
  rewrite nat_ascii_embedding by lia.
  apply andb_true_iff. split; apply Nat.leb_le; lia.
Qed.

Lemma digits_fuel_all_digits (fuel : nat) (n : Z) (acc : string) :
  all_digits acc = true -> all_digits (digits_fuel fuel n acc) = true.
Proof.
  revert n acc. induction fuel as [|fuel IH]; intros n acc Hacc; [exact Hacc|].
  cbn [digits_fuel].
  assert (Hd : all_digits (String (digit (n mod 10)) acc) = true).
  { cbn [all_digits]. rewrite digit_is_digit, Hacc; [reflexivity|].
    apply Z.mod_pos_bound. lia. }
  destruct (n <? 10); [exact Hd|now apply IH].
Qed.

Lemma digits_all_digits (n : Z) : all_digits (digits n) = true.
Proof. now apply digits_fuel_all_digits. Qed.

Lemma digits_fuel_nonempty (fuel : nat) (n : Z) (acc : string) :
  digits_fuel (S fuel) n acc <> "".
Proof.
  revert n acc. induction fuel as [|fuel IH]; intros n acc.
  - cbn. destruct (n <? 10); discriminate.
  - change (digits_fuel (S (S fuel)) n acc)
      with (if n <? 10 then String (digit (n mod 10)) acc
            else digits_fuel (S fuel) (n / 10) (String (digit (n mod 10)) acc)).
    destruct (n <? 10); [discriminate|apply IH].
Qed.

Lemma digits_nonempty (n : Z) : digits n <> "".
Proof. apply digits_fuel_nonempty. Qed.

Lemma digits_one (d : Z) : 0 <= d < 10 -> digits d = String (digit d) "".
Proof.
  intros Hd. unfold digits.
  cbn [digits_fuel]. rewrite Z.mod_small by lia.
  destruct (Z.ltb_spec d 10); [reflexivity|lia].
Qed.

(** The digits spell the number. *)
Lemma digits_fuel_acc (fuel : nat) (n : Z) (acc : string) :
  digits_fuel fuel n acc = digits_fuel fuel n "" ++ acc.
Proof.
  revert n acc. induction fuel as [|fuel IH]; intros n acc; [reflexivity|].
  cbn [digits_fuel]. destruct (n <? 10); [reflexivity|].
  rewrite (IH _ (String _ acc)), (IH _ (String _ "")).
  now rewrite append_assoc.
Qed.

Lemma decimal_value_app (a : Z) (s t : string) :
  decimal_value a (s ++ t) = decimal_value (decimal_value a s) t.
Proof.
  revert a. induction s as [|c s IH]; intros a; [reflexivity|].
  cbn [append decimal_value]. apply IH.
Qed.

Lemma decimal_value_digit (a d : Z) :
  0 <= d < 10 -> decimal_value a (String (digit d) "") = a * 10 + d.
Proof.
  intros Hd. cbn [decimal_value]. unfold digit.
  rewrite nat_ascii_embedding by lia. lia.
Qed.

Lemma digits_fuel_value (fuel : nat) (n : Z) :
  0 <= n < 2 ^ Z.of_nat (S fuel) ->
  decimal_value 0 (digits_fuel (S fuel) n "") = n.
Proof.
  revert n. induction fuel as [|fuel IH]; intros n Hn.
  - cbn [digits_fuel]. change (2 ^ Z.of_nat 1) with 2 in Hn.
    rewrite Z.mod_small by lia.
    destruct (n <? 10); rewrite decimal_value_digit; lia.
  - change (digits_fuel (S (S fuel)) n "")
      with (if n <? 10 then String (digit (n mod 10)) ""
            else digits_fuel (S fuel) (n / 10) (String (digit (n mod 10)) "")).
    pose proof (Z.mod_pos_bound n 10 ltac:(lia)) as Hm.
    destruct (Z.ltb_spec n 10) as [Hlt|Hge].
    + rewrite Z.mod_small by lia. rewrite decimal_value_digit; lia.
    + assert (Hq : 0 <= n / 10 < 2 ^ Z.of_nat (S fuel)).
      { split; [apply Z.div_pos; lia|].
        apply Z.div_lt_upper_bound; [lia|].
        rewrite (Nat2Z.inj_succ (S fuel)), Z.pow_succ_r in Hn by lia. lia. }
      rewrite digits_fuel_acc, decimal_value_app, (IH _ Hq).
      rewrite (decimal_value_digit _ _ Hm).
      pose proof (Z.div_mod n 10 ltac:(lia)). lia.
Qed.

Lemma digits_value (n : Z) : 0 <= n -> decimal_value 0 (digits n) = n.
Proof.
  intros Hn. unfold digits. apply digits_fuel_value. split; [exact Hn|].
  rewrite Nat2Z.inj_succ, Z2Nat.id by apply Z.log2_nonneg.
  destruct (Z.eq_dec n 0) as [->|Hne]; [reflexivity|].
  apply Z.log2_spec. lia.
Qed.

Lemma is_digit_not_comma (c : ascii) :
  is_digit c = true -> Ascii.eqb c "," = false.
Proof.
  intros Hc. destruct (Ascii.eqb_spec c ","); [subst; discriminate|reflexivity].
Qed.

Lemma strip_commas_group3 (s : string) :
  all_digits s = true -> strip_commas (group3 s) = s.
Proof.
  induction s as [|c s IH]; [reflexivity|].
  cbn [all_digits group3]. intros H. apply andb_true_iff in H.
  destruct H as [Hc Hs].
  destruct ((String.length s mod 3 =? 0) && negb (String.length s =? 0))%nat;
    cbn [strip_commas]; rewrite (is_digit_not_comma c Hc);
    [change (Ascii.eqb "," ",") with true; cbv iota|]; now rewrite IH.
Qed.

Lemma strip_commas_format_commas (n : Z) : strip_commas (format_commas n) = str n.
Proof.
  unfold format_commas, str. destruct (n <? 0).
  - change ("-" ++ group3 (digits (- n)))
      with (String "-" (group3 (digits (- n)))).
    cbn [strip_commas]. change (Ascii.eqb "-" ",") with false. cbv iota.
    now rewrite strip_commas_group3 by apply digits_all_digits.
  - apply strip_commas_group3, digits_all_digits.
Qed.

Lemma mod3_succ_zero (n : nat) : (S n mod 3 = 0 -> S (n mod 3) = 3)%nat.
Proof.
  intros H. pose proof (Nat.div_mod_eq (S n) 3). pose proof (Nat.div_mod_eq n 3).
  pose proof (Nat.mod_upper_bound n 3 ltac:(lia)). lia.
Qed.

Lemma mod3_succ_nonzero (n : nat) :
  (S n mod 3 <> 0 -> S (n mod 3) = S n mod 3)%nat.
Proof.
  intros H. pose proof (Nat.div_mod_eq (S n) 3). pose proof (Nat.div_mod_eq n 3).
  pose proof (Nat.mod_upper_bound n 3 ltac:(lia)).
  pose proof (Nat.mod_upper_bound (S n) 3 ltac:(lia)). lia.
Qed.

Lemma comma_groups_group3 (s : string) :
  all_digits s = true -> s <> "" ->
  exists g gs,
    comma_groups (group3 s) = g :: gs
    /\ String.length g = S ((String.length s - 1) mod 3)
    /\ Forall (fun x => String.length x = 3%nat) gs
    /\ Forall (fun x => all_digits x = true) (g :: gs).
Proof.
  induction s as [|c s IH]; [congruence|]. intros Hd _.
  cbn [all_digits] in Hd. apply andb_true_iff in Hd. destruct Hd as [Hc Hs].
  cbn [group3].
  replace (String.length (String c s) - 1)%nat with (String.length s)
    by (cbn [String.length]; lia).
  destruct s as [|c' s'].
  - exists (String c ""), []. cbn.
    rewrite (is_digit_not_comma c Hc).
    repeat split; repeat constructor. cbn. now rewrite Hc.
  - destruct (IH Hs ltac:(discriminate)) as (g & gs & Hg & Hlen & Hgs & Hall).
    replace (String.length (String c' s') - 1)%nat with (String.length s')
      in Hlen by (cbn [String.length]; lia).
    set (t := String c' s') in *.
    assert (Ht : String.length t = S (String.length s')) by reflexivity.
    destruct (Nat.eqb_spec (String.length t mod 3) 0) as [Hm|Hm].
    + replace (negb (String.length t =? 0)%nat) with true
        by (rewrite Ht; reflexivity).
      cbn [andb comma_groups].
      rewrite (is_digit_not_comma c Hc).
      change (Ascii.eqb "," ",") with true. cbv iota. rewrite Hg.
      exists (String c ""), (g :: gs). repeat split.
      * rewrite Hm. reflexivity.
      * constructor; [|exact Hgs]. rewrite Hlen.
        apply mod3_succ_zero. now rewrite <- Ht.
      * constructor; [|exact Hall]. cbn. now rewrite Hc.
    + cbn [andb comma_groups].
      rewrite (is_digit_not_comma c Hc), Hg.
      exists (String c g), gs. repeat split.
      * cbn [String.length]. rewrite Hlen. f_equal.
        rewrite Ht in *. now apply mod3_succ_nonzero.
      * exact Hgs.
      * inversion Hall; subst. constructor; [|assumption].
        cbn. now rewrite Hc.
Qed.

Lemma group3_grouped (s : string) :
  all_digits s = true -> s <> "" -> grouped_by_thousands (group3 s).
Proof.
  intros Hd Hne.
  destruct (comma_groups_group3 s Hd Hne) as (g & gs & Hg & Hlen & Hgs & Hall).
  exists g, gs. repeat split; try assumption; rewrite Hlen.
  - lia.
  - pose proof (Nat.mod_upper_bound (String.length s - 1) 3 ltac:(lia)). lia.
Qed.

Lemma round_half_even_nearest (q : Q) :
  2 * Z.abs (round_half_even q * Z.pos (Qden q) - Qnum q) <= Z.pos (Qden q).
Proof.
  unfold round_half_even.
  set (n := Qnum q). set (d := Z.pos (Qden q)).
  assert (Hd : 0 < d) by (unfold d; lia).
  pose proof (Z.div_mod n d ltac:(lia)) as Hdm.
  pose proof (Z.mod_pos_bound n d Hd) as Hr.
  destruct (Z.compare_spec (2 * (n mod d)) d) as [E|L|G];
    [destruct (Z.even (n / d))| |]; nia.
Qed.

(** [f"{x:.1f}"] is a sign where [x] is negative, the digits of a whole
    number, a point and one digit; the number that the digits spell is
    the tenfold of [x] in absolute value, rounded. *)
Lemma format_1f_shape (q : Q) :
  exists whole tenth : Z,
    0 <= tenth < 10
    /\ whole * 10 + tenth
       = round_half_even ((if Qlt_le_dec q 0 then - q else q) * 10)
    /\ format_1f q
       = (if Qlt_le_dec q 0 then "-" else "")
         ++ digits whole ++ "." ++ String (digit tenth) "".
Proof.
  unfold format_1f.
  destruct (Qlt_le_dec q 0) as [Hneg|Hpos]; unfold format_1f_abs;
    match goal with |- context [round_half_even ?x] =>
      set (t := round_half_even x) end;
    exists (t / 10), (t mod 10);
    pose proof (Z.mod_pos_bound t 10 ltac:(lia)) as Hm;
    (split; [exact Hm|]); (split; [pose proof (Z.div_mod t 10); lia|]);
    now rewrite (digits_one (t mod 10) Hm).
Qed.

(** ** Rows *)

Lemma markdown_row_full_row (r : FileRecord) : markdown_row r = full_row r.
Proof. reflexivity. Qed.

Lemma file_table_row_ranked (i : Z) (r : FileRecord) :
  file_table_row true i r = ranked_row i r.
Proof.
  unfold file_table_row, file_table_cells, ranked_row. cbn [app join].
  rewrite !append_assoc. reflexivity.
Qed.

Lemma enumerate_nth_error {B : Type} (l : list B) (start : Z) (i : nat) (x : B) :
  nth_error l i = Some x ->
  nth_error (enumerate l start) i = Some (start + Z.of_nat i, x).
Proof.
  revert start i. induction l as [|y l IH]; intros start [|i] Hx;
    try discriminate.
  - injection Hx as ->. cbn. now rewrite Z.add_0_r.
  - cbn [enumerate nth_error]. rewrite (IH (start + 1) i Hx).
    do 2 f_equal. lia.
Qed.

Lemma enumerate_length {B : Type} (l : list B) (start : Z) :
  length (enumerate l start) = length l.
Proof.
  revert start. induction l as [|y l IH]; intros start; [reflexivity|].
  cbn. now rewrite IH.
Qed.

(** C7, amended.  A row of the full listing holds the path
    between backquotes, the extension, the line count with thousands
    separators and the size in KB with one decimal, and no rank.  A row
    of the table of the largest or of the smallest files holds the rank,
    counted from 1, the path between backquotes, the line count and the
    size in the same formats, and no extension. *)
Theorem table_rows (lower : string -> string) (r : FileRecord)
  (rest : list FileRecord) :
  (exists rows,
      generate_markdown_table lower (r :: rest)
      = join nl ("| File | Extension | Lines | Size (KB) |"
                 :: "|------|-----------|-------|-----------|" :: rows)
      /\ Forall2 (fun x row => row = full_row x)
           (sort_full_listing lower (r :: rest)) rows)
  /\ (exists rows,
        generate_file_table (r :: rest) true
        = join nl ("| Rank | File | Lines | Size (KB) |"
                   :: "|------|------|------|------|" :: rows)
        /\ length rows = length (r :: rest)
        /\ forall i x,
             nth_error (r :: rest) i = Some x ->
             nth_error rows i = Some (ranked_row (Z.of_nat i + 1) x))
  /\ (forall file_info n,
        generate_top_files_table file_info n
        = ranked_table_of file_info (top_files file_info n)
        /\ generate_bottom_files_table file_info n
           = ranked_table_of file_info (bottom_files file_info n))
  /\ (forall n,
        strip_commas (format_commas n) = str n
        /\ format_commas n
           = (if n <? 0 then "-" else "") ++ group3 (digits (Z.abs n))
        /\ grouped_by_thousands (group3 (digits (Z.abs n))))
  /\ (forall q, exists whole tenth : Z,
        0 <= tenth < 10
        /\ whole * 10 + tenth
           = round_half_even ((if Qlt_le_dec q 0 then - q else q) * 10)
        /\ format_1f q
           = (if Qlt_le_dec q 0 then "-" else "")
             ++ digits whole ++ "." ++ String (digit tenth) "").
Proof.
  split; [|split; [|split; [|split]]].
  - exists (map markdown_row (sort_full_listing lower (r :: rest))).
    split; [reflexivity|].
    induction (sort_full_listing lower (r :: rest)) as [|x l IH];
      constructor; auto.
  - exists (map (fun p => file_table_row true (fst p) (snd p))
              (enumerate (r :: rest) 1)).
    split; [reflexivity|]. split.
    + now rewrite length_map, enumerate_length.
    + intros i x Hx. rewrite nth_error_map.
      rewrite (enumerate_nth_error _ 1 i x Hx). cbn [option_map fst snd].
      rewrite file_table_row_ranked. do 2 f_equal. lia.
  - intros file_info n. split.
    + unfold generate_top_files_table, ranked_table_of.
      destruct file_info; reflexivity.
    + unfold generate_bottom_files_table, ranked_table_of.
      destruct file_info; reflexivity.
  - intros n. split; [apply strip_commas_format_commas|]. split.
    + unfold format_commas. destruct (Z.ltb_spec n 0).
      * now rewrite Z.abs_neq by lia.
      * now rewrite Z.abs_eq by lia.
    + apply group3_grouped; [apply digits_all_digits|apply digits_nonempty].
  - apply format_1f_shape.
Qed.

(** A table of the largest files and one of the smallest, for a record
    whose extension is [none]: the word is in neither. *)
Lemma ranked_tables_omit_extension :
  generate_top_files_table [makefile_record] 10
  = "| Rank | File | Lines | Size (KB) |" ++ nl
    ++ "|------|------|------|------|" ++ nl
    ++ "| 1 | `Makefile` | 1,234 | 0.8 |"
  /\ contains (ext makefile_record)
       (generate_top_files_table [makefile_record] 10) = false
  /\ contains (ext makefile_record)
       (generate_bottom_files_table [makefile_record] 5) = false
  /\ contains (ext makefile_record)
       (generate_markdown_table ascii_lower [makefile_record]) = true.
Proof. repeat split; vm_compute; reflexivity. Qed.

(** ** The tables of the largest and of the smallest files *)

Lemma ranked_rows_enumerate (rows : list FileRecord) (start : Z) :
  map (fun p => file_table_row true (fst p) (snd p)) (enumerate rows start)
  = ranked_rows start rows.
Proof.
  revert start. induction rows as [|r rows IH]; intros start; [reflexivity|].
  cbn [enumerate map ranked_rows fst snd].
  now rewrite file_table_row_ranked, IH.
Qed.

Lemma generate_file_table_selection (file_info rows : list FileRecord) :
  match file_info with
  | [] => no_files
  | _ =>
      match filter (fun r => 0 <? lines r) file_info with
      | [] => no_non_empty_files
      | _ => generate_file_table rows true
      end
  end = selection_table file_info rows.
Proof.
  unfold selection_table. destruct file_info as [|f fi]; [reflexivity|].
  destruct (filter _ (f :: fi)); [reflexivity|].
  destruct rows as [|r rows]; [reflexivity|].
  unfold generate_file_table. rewrite ranked_rows_enumerate. reflexivity.
Qed.

Lemma top_table_selection (file_info : list FileRecord) (n : Z) :
  generate_top_files_table file_info n
  = selection_table file_info
      (slice_to (sorted_reverse lines (filter (fun r => 0 <? lines r) file_info))
         n).
Proof. rewrite <- generate_file_table_selection. reflexivity. Qed.

Lemma bottom_table_selection (file_info : list FileRecord) (n : Z) :
  generate_bottom_files_table file_info n
  = selection_table file_info
      (slice_to (sorted lines (filter (fun r => 0 <? lines r) file_info)) n).
Proof. rewrite <- generate_file_table_selection. reflexivity. Qed.

Lemma firstn_Forall {B : Type} (P : B -> Prop) (k : nat) (l : list B) :
  Forall P l -> Forall P (firstn k l).
Proof.
  rewrite !Forall_forall. intros H x Hx. apply H. eapply firstn_incl, Hx.
Qed.

(** C5, amended.  The records of the input with [lines > 0], sorted by
    line count, descending, records with as many lines in their order of
    the input, are one list, [largest_first]; sorted ascending in the
    same way they are [smallest_first].  For every [N >= 0] the Top-N
    table shows the first N records of [largest_first], ranked from 1,
    and the Bottom-N table the first N of [smallest_first]; for a
    negative [N] each table shows all but the last [|N|] records of its
    list.  So for every integer each table shows a beginning of its
    list, and no record with [lines = 0]. *)
Theorem top_bottom_selection (file_info : list FileRecord) :
  let kept := filter (fun r => 0 <? lines r) file_info in
  exists largest_first smallest_first : list FileRecord,
    (Permutation largest_first kept
     /\ StronglySorted (fun a b => lines b <= lines a) largest_first
     /\ forall v, filter (fun r => lines r =? v) largest_first
                  = filter (fun r => lines r =? v) kept)
    /\ (Permutation smallest_first kept
        /\ StronglySorted (fun a b => lines a <= lines b) smallest_first
        /\ forall v, filter (fun r => lines r =? v) smallest_first
                     = filter (fun r => lines r =? v) kept)
    /\ (forall n : nat,
          generate_top_files_table file_info (Z.of_nat n)
          = selection_table file_info (firstn n largest_first)
          /\ generate_bottom_files_table file_info (Z.of_nat n)
             = selection_table file_info (firstn n smallest_first))
    /\ (forall p : positive,
          generate_top_files_table file_info (Z.neg p)
          = selection_table file_info
              (firstn (length largest_first - Pos.to_nat p) largest_first)
          /\ generate_bottom_files_table file_info (Z.neg p)
             = selection_table file_info
                 (firstn (length smallest_first - Pos.to_nat p) smallest_first))
    /\ (forall n : Z,
          exists k k' : nat,
            generate_top_files_table file_info n
            = selection_table file_info (firstn k largest_first)
            /\ generate_bottom_files_table file_info n
               = selection_table file_info (firstn k' smallest_first)
            /\ Forall (fun r => lines r <> 0)
                 (firstn k largest_first ++ firstn k' smallest_first)).
Proof.
  intros kept.
  exists (sorted_reverse lines kept), (sorted lines kept).
  assert (Hpos : forall l, Permutation l kept -> Forall (fun r => lines r <> 0) l).
  { intros l Hl. apply Forall_forall. intros r Hr.
    apply (Permutation_in _ Hl) in Hr. unfold kept in Hr.
    apply filter_In in Hr. destruct Hr as [_ Hr]. apply Z.ltb_lt in Hr. lia. }
  split; [|split; [|split; [|split]]].
  - split; [apply sorted_reverse_perm|]. split.
    + eapply StronglySorted_impl; [|apply sorted_reverse_descending].
      unfold descending, py_le. simpl. intros a b. rewrite Z.ltb_ge. lia.
    + intros v. exact (sorted_reverse_stable (H := PyOrd_int) lines v _).
  - split; [apply sorted_perm|]. split.
    + eapply StronglySorted_impl; [|apply sorted_ascending].
      unfold ascending, py_le. simpl. intros a b. rewrite Z.ltb_ge. lia.
    + intros v. exact (sorted_stable (H := PyOrd_int) lines v _).
  - intros n. rewrite top_table_selection, bottom_table_selection.
    now rewrite !slice_to_nat.
  - intros p. rewrite top_table_selection, bottom_table_selection.
    rewrite !slice_to_negative by lia.
    replace (Z.to_nat (- Z.neg p)) with (Pos.to_nat p) by lia.
    split; reflexivity.
  - intros n. rewrite top_table_selection, bottom_table_selection.
    unfold slice_to. destruct (n <? 0); do 2 eexists;
      (split; [reflexivity|]; split; [reflexivity|]);
      apply Forall_app; split; apply firstn_Forall, Hpos;
      apply (sorted_reverse_perm lines) || apply (sorted_perm lines).
Qed.

(** With [N = -1] and three records that have lines, each table shows
    two records. *)
Lemma negative_n_shows_all_but_last :
  top_files three_records (-1)
  = [record_with "a.py" 3; record_with "b.py" 2]
  /\ generate_top_files_table three_records (-1)
     = join nl
         ["| Rank | File | Lines | Size (KB) |";
          "|------|------|------|------|";
          "| 1 | `a.py` | 3 | 0.0 |";
          "| 2 | `b.py` | 2 | 0.0 |"]
  /\ generate_bottom_files_table three_records (-1)
     = join nl
         ["| Rank | File | Lines | Size (KB) |";
          "|------|------|------|------|";
          "| 1 | `c.py` | 1 | 0.0 |";
          "| 2 | `b.py` | 2 | 0.0 |"].
Proof. repeat split; vm_compute; reflexivity. Qed.

(** ** Independence of the order of enumeration *)

Lemma flat_map_flat_map {A B C : Type} (g : B -> list C) (h : A -> list B)
  (l : list A) :
  flat_map g (flat_map h l) = flat_map (fun x => flat_map g (h x)) l.
Proof.
  induction l as [|x l IH]; [reflexivity|].
  cbn [flat_map]. now rewrite flat_map_app, IH.
Qed.

Section WalkRecordsFacts.
Variable lower : string -> string.
Variable keep : string -> bool.
Variable skip_extensions : list string.

Lemma file_records_files_of (rel : list string) (es : list entry) :
  file_records lower skip_extensions rel (files_of es)
  = flat_map (own_records lower skip_extensions rel) es.
Proof.
  unfold file_records, files_of. rewrite flat_map_flat_map.
  apply flat_map_ext. intros [f|d sub]; reflexivity.
Qed.

Lemma walk_records_dir (rel : list string) (name : string) (es : list entry) :
  walk_records lower keep skip_extensions rel (Dir name es)
  = (flat_map (own_records lower skip_extensions rel) es
     ++ flat_map (records_below lower keep skip_extensions rel) es)%list.
Proof.
  unfold walk_records at 1. cbn [os_walk flat_map fst snd].
  rewrite file_records_files_of. f_equal.
  rewrite flat_map_flat_map. apply flat_map_ext.
  intros [f|d sub]; [reflexivity|].
  unfold records_below. destruct (keep d); reflexivity.
Qed.

(** Trees with the same contents give the same records, in an order that
    follows the order of the listings. *)
Lemma same_tree_records :
  (forall e e', same_tree e e' ->
     forall rel,
       Permutation (walk_records lower keep skip_extensions rel e)
         (walk_records lower keep skip_extensions rel e')
       /\ own_records lower skip_extensions rel e
          = own_records lower skip_extensions rel e'
       /\ Permutation (records_below lower keep skip_extensions rel e)
            (records_below lower keep skip_extensions rel e'))
  /\ (forall es es', same_listing es es' ->
        forall rel,
          Permutation (flat_map (own_records lower skip_extensions rel) es)
            (flat_map (own_records lower skip_extensions rel) es')
          /\ Permutation
               (flat_map (records_below lower keep skip_extensions rel) es)
               (flat_map (records_below lower keep skip_extensions rel) es')).
Proof.
  apply same_tree_listing_ind.
  - intros f rel. repeat split; reflexivity.
  - intros name es es' _ IH rel.
    assert (Hw : forall rel',
      Permutation (walk_records lower keep skip_extensions rel' (Dir name es))
        (walk_records lower keep skip_extensions rel' (Dir name es'))).
    { intros rel'. rewrite !walk_records_dir. destruct (IH rel') as [Ho Hb].
      now apply Permutation_app. }
    repeat split; [apply Hw|].
    unfold records_below. destruct (keep name); [apply Hw|reflexivity].
  - intros rel. split; reflexivity.
  - intros e e' es es' _ IHe _ IHes rel.
    destruct (IHe rel) as (_ & Ho & Hb). destruct (IHes rel) as [Hos Hbs].
    cbn [flat_map]. split.
    + rewrite Ho. now apply Permutation_app_head.
    + now apply Permutation_app.
  - intros e1 e2 es rel. split; apply Permutation_flat_map, perm_swap.
  - intros es1 es2 es3 _ IH1 _ IH2 rel.
    destruct (IH1 rel), (IH2 rel). split; etransitivity; eauto.
Qed.

End WalkRecordsFacts.

Lemma scan_walk_records (lower : string -> string)
  (skip_dirs skip_extensions : list string) (top : entry) :
  scan lower skip_dirs skip_extensions top
  = walk_records lower (fun d => negb (mem d skip_dirs)) skip_extensions [] top.
Proof.
  unfold scan, walk_records. apply flat_map_ext.
  intros [[rel dirs] files]. reflexivity.
Qed.

Lemma scan_same_tree (lower : string -> string)
  (skip_dirs skip_extensions : list string) (top top' : entry) :
  same_tree top top' ->
  Permutation (scan lower skip_dirs skip_extensions top)
    (scan lower skip_dirs skip_extensions top').
Proof.
  intros Hs. rewrite !scan_walk_records.
  now apply (proj1 (same_tree_records lower _ skip_extensions) top top' Hs []).
Qed.

(** With paths that differ beyond case, the result of [get_file_info]
    does not depend on the order of the listings. *)
Lemma get_file_info_same_tree (lower : string -> string) (top top' : entry)
  (skip_dirs skip_extensions : option (list string)) :
  same_tree top top' ->
  NoDup (map (fun r => lower (path r))
           (get_file_info lower top skip_dirs skip_extensions)) ->
  get_file_info lower top skip_dirs skip_extensions
  = get_file_info lower top' skip_dirs skip_extensions.
Proof.
  intros Hs Hnd. unfold get_file_info in *.
  apply sorted_perm_unique.
  - apply Permutation_map. now apply scan_same_tree.
  - eapply Permutation_NoDup; [|exact Hnd].
    apply Permutation_map. apply sorted_perm.
Qed.

(** The sets are consulted for membership only. *)
Lemma mem_perm (x : string) (s s' : list string) :
  Permutation s s' -> mem x s = mem x s'.
Proof.
  intros Hp. destruct (mem x s') eqn:E.
  - apply mem_In. apply mem_In in E.
    eapply Permutation_in; [symmetry; exact Hp|exact E].
  - apply mem_false. apply mem_false in E. intros Hin. apply E.
    eapply Permutation_in; [exact Hp|exact Hin].
Qed.

Lemma flat_map_ext_Forall {A B : Type} (f g : A -> list B) (l : list A) :
  Forall (fun x => f x = g x) l -> flat_map f l = flat_map g l.
Proof.
  induction 1 as [|x l Hx _ IH]; [reflexivity|].
  cbn [flat_map]. now rewrite Hx, IH.
Qed.

Lemma os_walk_ext (keep keep' : string -> bool) :
  (forall d, keep d = keep' d) ->
  forall top rel, os_walk keep rel top = os_walk keep' rel top.
Proof.
  intros Hk top.
  induction top as [f|name es IH] using entry_induction; intros rel;
    [reflexivity|].
  cbn [os_walk]. f_equal.
  - do 2 f_equal. apply filter_ext. exact Hk.
  - apply flat_map_ext_Forall. eapply Forall_impl; [|exact IH].
    intros [f|d sub] He; [reflexivity|]. cbn beta iota.
    rewrite <- Hk. destruct (keep d); [apply He|reflexivity].
Qed.

Lemma scan_file_ext (lower : string -> string) (se se' : list string)
  (rel : list string) (f : file) :
  (forall x, mem x se = mem x se') ->
  scan_file lower se rel f = scan_file lower se' rel f.
Proof. intros Hm. unfold scan_file. now rewrite Hm. Qed.

Lemma get_file_info_set_order (lower : string -> string) (top : entry)
  (sd sd' se se' : list string) :
  Permutation sd sd' -> Permutation se se' ->
  get_file_info lower top (Some sd) (Some se)
  = get_file_info lower top (Some sd') (Some se').
Proof.
  intros Hd He. unfold get_file_info, scan. do 2 f_equal.
  rewrite (os_walk_ext (fun d => negb (mem d sd)) (fun d => negb (mem d sd')))
    by (intros d; f_equal; now apply mem_perm).
  apply flat_map_ext. intros [[rel dirs] files].
  apply flat_map_ext. intros f.
  rewrite (scan_file_ext lower se se'); [reflexivity|].
  intros x. now apply mem_perm.
Qed.

(** The catalogue sorts what it takes from the sets. *)
Lemma insert_sorted_Forall2 {A K : Type} `{PyOrd K} (R : A -> A -> Prop)
  (key : A -> K) (x y : A) (l l' : list A) :
  (forall a b, R a b -> key a = key b) ->
  R x y -> Forall2 R l l' ->
  Forall2 R (insert_sorted key x l) (insert_sorted key y l').
Proof.
  intros Hkey Hxy. induction 1 as [|a b l l' Hab Hl IH]; cbn [insert_sorted].
  - now repeat constructor.
  - rewrite (Hkey _ _ Hxy), (Hkey _ _ Hab).
    destruct (py_lt (key b) (key y)); now repeat constructor.
Qed.

Lemma sorted_Forall2 {A K : Type} `{PyOrd K} (R : A -> A -> Prop)
  (key : A -> K) (l l' : list A) :
  (forall a b, R a b -> key a = key b) ->
  Forall2 R l l' -> Forall2 R (sorted key l) (sorted key l').
Proof.
  intros Hkey. induction 1 as [|a b l l' Hab Hl IH]; cbn [sorted].
  - constructor.
  - now apply insert_sorted_Forall2.
Qed.

Lemma flat_map_Forall2 {A B : Type} (R : A -> A -> Prop) (f : A -> list B)
  (l l' : list A) :
  (forall a b, R a b -> f a = f b) ->
  Forall2 R l l' -> flat_map f l = flat_map f l'.
Proof.
  intros Hf. induction 1 as [|a b l l' Hab Hl IH]; [reflexivity|].
  cbn [flat_map]. now rewrite (Hf _ _ Hab), IH.
Qed.

Lemma sorted_set_order (s s' : list string) :
  NoDup s -> Permutation s s' ->
  sorted (fun x => x) s = sorted (fun x => x) s'.
Proof.
  intros Hnd Hp. apply sorted_perm_unique; [exact Hp|]. now rewrite map_id.
Qed.

Lemma exclusions_list_set_order (cats cats' : list (string * list string))
  (dirs dirs' : list string) :
  same_categories cats cats' -> NoDup dirs -> Permutation dirs dirs' ->
  exclusions_list cats dirs = exclusions_list cats' dirs'.
Proof.
  intros Hc Hnd Hp. unfold exclusions_list.
  rewrite (sorted_set_order dirs dirs' Hnd Hp). do 3 f_equal.
  eapply flat_map_Forall2; [|apply sorted_Forall2; [|exact Hc]].
  - intros [c s] [c' s'] (Hfst & Hn & Hperm). cbn [fst snd] in *. subst c'.
    now rewrite (sorted_set_order s s' Hn Hperm).
  - intros a b (Hfst & _). exact Hfst.
Qed.

Lemma distinct_NoDup (l : list string) : distinct l = true -> NoDup l.
Proof.
  induction l as [|x l IH]; [constructor|].
  cbn [distinct]. intros H. apply andb_true_iff in H. destruct H as [Hx Hl].
  constructor; [|now apply IH].
  apply mem_false. now apply negb_true_iff.
Qed.

Lemma same_tree_refl (e : entry) : same_tree e e.
Proof.
  induction e as [f|name es IH] using entry_induction; constructor.
  induction IH as [|e es He _ IHes]; now constructor.
Qed.

Lemma same_listing_perm (es es' : list entry) :
  Permutation es es' -> same_listing es es'.
Proof.
  induction 1 as [|e es es' _ IH|e1 e2 es|es1 es2 es3 _ IH1 _ IH2].
  - constructor.
  - constructor; [apply same_tree_refl|exact IH].
  - apply same_swap.
  - eapply same_trans; eauto.
Qed.

Lemma same_tree_reversed (e : entry) : same_tree e (reversed e).
Proof.
  induction e as [f|name es IH] using entry_induction; cbn [reversed];
    constructor.
  apply same_trans with (es2 := map reversed es).
  - induction IH as [|e es He _ IHes]; cbn [map]; now constructor.
  - apply same_listing_perm, Permutation_rev.
Qed.

Lemma same_categories_refl (cats : list (string * list string)) :
  Forall (fun c => NoDup (snd c)) cats -> same_categories cats cats.
Proof.
  induction 1 as [|c cats Hc _ IH]; constructor; auto.
Qed.

Lemma same_categories_rev (cats : list (string * list string)) :
  Forall (fun c => NoDup (snd c)) cats ->
  same_categories cats (map (fun c => (fst c, rev (snd c))) cats).
Proof.
  induction 1 as [|c cats Hc _ IH]; constructor; auto.
  cbn [fst snd]. repeat split; auto. apply Permutation_rev.
Qed.

Lemma default_categories_NoDup :
  Forall (fun c => NoDup (snd c)) DEFAULT_SKIP_EXTENSIONS_BY_CATEGORY.
Proof.
  unfold DEFAULT_SKIP_EXTENSIONS_BY_CATEGORY.
  repeat (apply Forall_cons; [apply distinct_NoDup; reflexivity|]).
  apply Forall_nil.
Qed.

Lemma iteration_default :
  iteration_of_configuration DEFAULT_SKIP_DIRS
    DEFAULT_SKIP_EXTENSIONS_BY_CATEGORY DEFAULT_SKIP_EXTENSIONS.
Proof.
  repeat split; auto. apply same_categories_refl, default_categories_NoDup.
Qed.

Lemma iteration_reversed :
  iteration_of_configuration (rev DEFAULT_SKIP_DIRS) reversed_categories
    (rev DEFAULT_SKIP_EXTENSIONS).
Proof.
  repeat split; try apply Permutation_rev.
  apply same_categories_rev, default_categories_NoDup.
Qed.

(** The report that [main] writes is that of a run that iterates the sets
    as they are written in the source. *)
Lemma run_report_default (lower : string -> string) (tree : entry)
  (start_path : string) (top_n : Z) :
  run_report lower DEFAULT_SKIP_DIRS DEFAULT_SKIP_EXTENSIONS_BY_CATEGORY
    DEFAULT_SKIP_EXTENSIONS tree start_path top_n
  = generate_report lower start_path (get_file_info lower tree None None) top_n.
Proof. reflexivity. Qed.

Lemma run_report_any_order (lower : string -> string) (tree : entry)
  (start_path : string) (top_n : Z) (dirs : list string)
  (cats : list (string * list string)) (exts : list string) :
  iteration_of_configuration dirs cats exts ->
  run_report lower dirs cats exts tree start_path top_n
  = generate_report lower start_path (get_file_info lower tree None None) top_n.
Proof.
  intros (Hd & Hc & He). rewrite <- run_report_default. unfold run_report.
  rewrite <- (get_file_info_set_order lower tree _ _ _ _ Hd He).
  rewrite <- (exclusions_list_set_order _ _ _ _ Hc
                (distinct_NoDup DEFAULT_SKIP_DIRS eq_refl) Hd).
  reflexivity.
Qed.

(** C9. Two runs of the pipeline on one directory tree, with one root
    path and one N, give the same report, byte for byte.  The report
    holds no time and nothing else of the process; what differs between
    two processes is the order in which each iterates the sets of the
    configuration, and the report of a run does not depend on it: it is
    the string that [generate_report] gives for the records of
    [get_file_info].  The tree is the tree as its directories list
    their entries. *)
Theorem report_deterministic (lower : string -> string) (tree : entry)
  (start_path : string) (top_n : Z) (dirs dirs' : list string)
  (cats cats' : list (string * list string)) (exts exts' : list string) :
  iteration_of_configuration dirs cats exts ->
  iteration_of_configuration dirs' cats' exts' ->
  run_report lower dirs cats exts tree start_path top_n
  = run_report lower dirs' cats' exts' tree start_path top_n
  /\ run_report lower dirs cats exts tree start_path top_n
     = generate_report lower start_path (get_file_info lower tree None None)
         top_n.
Proof.
  intros H H'. split.
  - now rewrite !run_report_any_order.
  - now apply run_report_any_order.
Qed.

Lemma report_deterministic_witness :
  run_report ascii_lower (rev DEFAULT_SKIP_DIRS) reversed_categories
    (rev DEFAULT_SKIP_EXTENSIONS) sample_tree "/home/user/project" 10
  = run_report ascii_lower DEFAULT_SKIP_DIRS DEFAULT_SKIP_EXTENSIONS_BY_CATEGORY
      DEFAULT_SKIP_EXTENSIONS sample_tree "/home/user/project" 10.
Proof.
  apply (proj1 (report_deterministic ascii_lower sample_tree
                  "/home/user/project" 10 _ _ _ _ _ _
                  iteration_reversed iteration_default)).
Defined.

(** The sets in the reverse order are another order of iteration. *)
Example reversed_configuration_differs :
  rev DEFAULT_SKIP_DIRS <> DEFAULT_SKIP_DIRS
  /\ reversed_categories <> DEFAULT_SKIP_EXTENSIONS_BY_CATEGORY.
Proof. split; discriminate. Qed.

(** ** Independence of the order of the directory listings *)

(** X17. Two trees with the same contents, whose directories list their
    entries in different orders, have the same report when no two records
    have the same path up to case. *)
Theorem report_independent_of_listing_order (lower : string -> string)
  (top top' : entry) (skip_dirs skip_extensions : option (list string))
  (start_path : string) (top_n : Z) :
  same_tree top top' ->
  NoDup (map (fun r => lower (path r))
           (get_file_info lower top skip_dirs skip_extensions)) ->
  generate_report lower start_path
    (get_file_info lower top skip_dirs skip_extensions) top_n
  = generate_report lower start_path
      (get_file_info lower top' skip_dirs skip_extensions) top_n.
Proof.
  intros Hs Hnd.
  now rewrite (get_file_info_same_tree lower top top' _ _ Hs Hnd).
Qed.

Lemma report_independent_of_listing_order_witness :
  generate_report ascii_lower "/home/user/project"
    (get_file_info ascii_lower sample_tree None None) 10
  = generate_report ascii_lower "/home/user/project"
      (get_file_info ascii_lower (reversed sample_tree) None None) 10.
Proof.
  apply (report_independent_of_listing_order ascii_lower sample_tree
           (reversed sample_tree) None None "/home/user/project" 10
           (same_tree_reversed sample_tree)
           (distinct_NoDup
              (map (fun r => ascii_lower (path r))
                 (get_file_info ascii_lower sample_tree None None))
              eq_refl)).
Defined.

(** The condition is needed.  Two listings of one directory that holds
    [A.py] and [a.py], with as many lines: the reports differ. *)
Example report_follows_listing_order :
  same_tree case_tree case_tree'
  /\ generate_report ascii_lower "/home/user/pkg"
       (get_file_info ascii_lower case_tree None None) 10
     <> generate_report ascii_lower "/home/user/pkg"
          (get_file_info ascii_lower case_tree' None None) 10.
Proof.
  split.
  - apply same_dir. apply same_swap.
  - intros H. apply (f_equal (contains "| 1 | `A.py`")) in H.
    vm_compute in H. discriminate.
Qed.

(** ** The example of the specification *)

Example sample_tree_records :
  get_file_info ascii_lower sample_tree None None
  = [{| path := "a.py"; lines := 4; size_kb := 24 # 1024; ext := "py" |};
     {| path := "empty.py"; lines := 0; size_kb := 0 # 1024; ext := "py" |};
     {| path := "locked.py"; lines := 0; size_kb := 2048 # 1024; ext := "py" |};
     {| path := "Makefile"; lines := 1; size_kb := 4 # 1024; ext := "none" |};
     {| path := "Node_Modules/E.PY"; lines := 2; size_kb := 12 # 1024;
        ext := "py" |}].
Proof. reflexivity. Qed.

Example sample_tree_full_table :
  generate_markdown_table ascii_lower
    (get_file_info ascii_lower sample_tree None None)
  = join nl
      ["| File | Extension | Lines | Size (KB) |";
       "|------|-----------|-------|-----------|";
       "| `a.py` | py | 4 | 0.0 |";
       "| `Node_Modules/E.PY` | py | 2 | 0.0 |";
       "| `Makefile` | none | 1 | 0.0 |";
       "| `empty.py` | py | 0 | 0.0 |";
       "| `locked.py` | py | 0 | 2.0 |"].
Proof. vm_compute. reflexivity. Qed.

Example sample_tree_top_table :
  generate_top_files_table (get_file_info ascii_lower sample_tree None None) 2
  = join nl
      ["| Rank | File | Lines | Size (KB) |";
       "|------|------|------|------|";
       "| 1 | `a.py` | 4 | 0.0 |";
       "| 2 | `Node_Modules/E.PY` | 2 | 0.0 |"]
  /\ generate_top_files_table
       (get_file_info ascii_lower sample_tree None None) 0
     = no_files
  /\ generate_bottom_files_table
       (get_file_info ascii_lower sample_tree None None) 5
     = join nl
         ["| Rank | File | Lines | Size (KB) |";
          "|------|------|------|------|";
          "| 1 | `Makefile` | 1 | 0.0 |";
          "| 2 | `Node_Modules/E.PY` | 2 | 0.0 |";
          "| 3 | `a.py` | 4 | 0.0 |"].
Proof. repeat split; vm_compute; reflexivity. Qed.

(** A run that succeeds writes the report, once. *)
Example main_writes_report :
  let w := world_with sample_tree in
  let args := parse_arguments w (Some "project") None (Some 3) in
  main ascii_lower w args
  = [Print "Analyzing files in: /home/user/project...";
     OpenFile "/home/user/LINE_COUNT.md";
     WriteFile "/home/user/LINE_COUNT.md"
       (generate_report ascii_lower "/home/user/project"
          (get_file_info ascii_lower sample_tree None None) 3);
     Print "Report generated successfully: /home/user/LINE_COUNT.md"].
Proof. vm_compute. reflexivity. Qed.

Example splitext_examples :
  splitext "a.tar.gz" = ("a.tar", ".gz") /\ splitext ".bashrc" = (".bashrc", "")
  /\ splitext "..." = ("...", "") /\ splitext "..a.b" = ("..a", ".b")
  /\ splitext "Makefile" = ("Makefile", "") /\ splitext "b." = ("b", ".").
Proof. repeat split; reflexivity. Qed.

(** ** Number formats on examples *)

Example str_ex : str 1234567 = "1234567" /\ str (-42) = "-42" /\ str 0 = "0".
Proof. repeat split; reflexivity. Qed.

Example format_commas_ex :
  format_commas 1234567 = "1,234,567" /\ format_commas 999 = "999"
  /\ format_commas 1000 = "1,000" /\ format_commas (-1234) = "-1,234"
  /\ format_commas 0 = "0" /\ format_commas 100000 = "100,000".
Proof. repeat split; reflexivity. Qed.

Example format_1f_ex :
  format_1f (true_div_1024 256) = "0.2" /\ format_1f (true_div_1024 768) = "0.8"
  /\ format_1f (true_div_1024 1024) = "1.0" /\ format_1f (true_div_1024 0) = "0.0"
  /\ format_1f (true_div_1024 123456789) = "120563.3".
Proof. repeat split; vm_compute; reflexivity. Qed.

(** * Further properties of the code *)

(** ** What [get_file_info] returns *)

(** X1. [get_file_info] returns exactly the records of the files of the
    tree that are beneath no excluded directory, whose names pass the
    filter and whose sizes can be obtained; the record of a file holds
    its relative path with forward slashes, its line count, its size
    divided by 1024 and its extension in lower case without the dot. *)
Theorem get_file_info_records (lower : string -> string) (top : entry)
  (skip_dirs skip_extensions : option (list string)) (r : FileRecord) :
  In r (get_file_info lower top skip_dirs skip_extensions)
  <-> exists rel f size,
        located top rel f
        /\ (forall d, In d rel -> ~ In d (skip_dirs_of skip_dirs))
        /\ ~ rejected_by_name lower (skip_extensions_of skip_extensions)
              (f_name f)
        /\ f_size f = Some size
        /\ r = record_of lower rel f size.
Proof.
  rewrite get_file_info_In. split.
  - intros (rel & f & Hin). apply scan_sound in Hin.
    destruct Hin as (Hloc & Hall & Hs).
    apply scan_file_record in Hs. destruct Hs as (Hrej & size & Hsize & ->).
    exists rel, f, size. auto.
  - intros (rel & f & size & Hloc & Hall & Hrej & Hsize & ->).
    exists rel, f. apply scan_complete; auto.
    apply scan_file_record. eauto.
Qed.

(** X2. The list that [get_file_info] returns is in the ascending order
    of the paths in lower case. *)
Theorem get_file_info_sorted (lower : string -> string) (top : entry)
  (skip_dirs skip_extensions : option (list string)) :
  StronglySorted
    (fun a b => String.ltb (lower (path b)) (lower (path a)) = false)
    (get_file_info lower top skip_dirs skip_extensions).
Proof.
  unfold get_file_info.
  eapply StronglySorted_impl;
    [|apply (sorted_ascending (fun x => lower (path x)))].
  intros a b Hab. exact Hab.
Qed.

(** X3. Excluding more never adds a record: with larger sets of excluded
    directories and extensions, [get_file_info] returns records that it
    also returns with the smaller sets. *)
Theorem get_file_info_antitone (lower : string -> string) (top : entry)
  (sd sd' se se' : list string) (r : FileRecord) :
  incl sd sd' -> incl se se' ->
  In r (get_file_info lower top (Some sd') (Some se')) ->
  In r (get_file_info lower top (Some sd) (Some se)).
Proof.
  intros Hd He. rewrite !get_file_info_In. cbn [skip_dirs_of skip_extensions_of].
  intros (rel & f & Hin). exists rel, f.
  apply scan_sound in Hin. destruct Hin as (Hloc & Hall & Hs).
  apply scan_file_record in Hs. destruct Hs as (Hrej & size & Hsize & ->).
  apply scan_complete; [exact Hloc| |].
  - intros d Hdrel Hdsd. exact (Hall d Hdrel (Hd d Hdsd)).
  - apply scan_file_record. split; [|eauto].
    intros Hr. apply Hrej. unfold rejected_by_name in *.
    destruct Hr as [H|[H|[H|H]]]; [tauto|tauto|tauto|].
    right. right. right. now apply He.
Qed.

Lemma get_file_info_antitone_witness :
  In (record_of ascii_lower [] Makefile 4)
    (get_file_info ascii_lower sample_tree (Some []) (Some [])).
Proof.
  apply (get_file_info_antitone ascii_lower sample_tree
           [] DEFAULT_SKIP_DIRS [] DEFAULT_SKIP_EXTENSIONS).
  - intros d [].
  - intros e [].
  - vm_compute. tauto.
Defined.

Lemma replace_has_char (a b : ascii) (s : string) :
  a <> b -> ~ has_char a (replace a b s).
Proof.
  intros Hab. unfold has_char.
  induction s as [|c s IH]; cbn [replace list_ascii_of_string In]; [tauto|].
  intros [H|H]; [|tauto].
  destruct (Ascii.eqb_spec c a) as [->|Hc]; congruence.
Qed.

(** X4. No path of a record holds a backslash. *)
Theorem get_file_info_forward_slashes (lower : string -> string) (top : entry)
  (skip_dirs skip_extensions : option (list string)) (r : FileRecord) :
  In r (get_file_info lower top skip_dirs skip_extensions) ->
  ~ has_char "\" (path r).
Proof.
  intros Hr. apply get_file_info_In in Hr. destruct Hr as (rel & f & Hin).
  apply scan_sound in Hin. destruct Hin as (_ & _ & Hs).
  apply scan_file_record in Hs. destruct Hs as (_ & size & _ & ->).
  cbn [path record_of]. unfold rel_path. apply replace_has_char. discriminate.
Qed.

Lemma get_file_info_forward_slashes_witness :
  ~ has_char "\"
      (path (record_of ascii_lower ["Node_Modules"] E_PY 12)).
Proof.
  apply (get_file_info_forward_slashes ascii_lower sample_tree None None).
  vm_compute. tauto.
Defined.

(** ** What [count_lines] returns *)

Lemma decode_utf8_ignore_length_le (n : nat) :
  forall bs, (length bs <= n)%nat ->
             (length (decode_utf8_ignore bs) <= length bs)%nat.
Proof.
  induction n as [|n IH]; intros bs Hn.
  - destruct bs; [apply Nat.le_refl|cbn [length] in Hn; lia].
  - destruct bs as [|b0 r0]; [apply Nat.le_refl|].
    cbn [decode_utf8_ignore].
    repeat match goal with
           | |- context [if ?c then _ else _] => destruct c
           | |- context [match ?l with [] => _ | _ :: _ => _ end] =>
               destruct l
           end;
      cbn [length] in *;
      try lia;
      match goal with
      | |- context [decode_utf8_ignore ?x] =>
          pose proof (IH x ltac:(cbn [length]; lia)); cbn [length] in *; lia
      end.
Qed.

Lemma translate_newlines_length_le (t : text) :
  (length (translate_newlines t) <= length t)%nat.
Proof.
  induction t as [| c | c c' r IHr IHc'] using text_ind2.
  - apply Nat.le_refl.
  - cbn. destruct (c =? 13)%N; apply Nat.le_refl.
  - destruct (N.eq_dec c 13) as [->|H13].
    + destruct (N.eq_dec c' 10) as [->|H10].
      * rewrite translate_newlines_crlf. cbn [length]. lia.
      * rewrite translate_newlines_cr by assumption.
        cbn [length] in *. lia.
    + rewrite translate_newlines_other by assumption. cbn [length] in *. lia.
Qed.

Lemma iter_lines_length_le (u cur : text) :
  (length (iter_lines cur u)
   <= length u + match cur with [] => 0 | _ => 1 end)%nat.
Proof.
  revert cur. induction u as [|c r IH]; intros cur.
  - destruct cur; cbn; lia.
  - cbn [iter_lines length]. destruct (c =? 10)%N.
    + cbn [length]. specialize (IH []). cbn in IH. lia.
    + specialize (IH (c :: cur)). cbn in IH. lia.
Qed.

(** X5. The line count is never negative and never exceeds the number of
    bytes of the file; an empty file has no line. *)
Theorem count_lines_bounds (f : file) :
  0 <= count_lines f
  /\ (forall bs, f_bytes f = Some bs ->
                 count_lines f <= Z.of_nat (length bs))
  /\ (f_bytes f = Some [] -> count_lines f = 0).
Proof.
  unfold count_lines, open_lines.
  destruct (f_bytes f) as [bs|]; [|repeat split; try lia; discriminate].
  rewrite sum_ones.
  assert (Hle : (length (iter_lines [] (translate_newlines
                                          (decode_utf8_ignore bs)))
                 <= length bs)%nat).
  { pose proof (iter_lines_length_le
                  (translate_newlines (decode_utf8_ignore bs)) []) as H1.
    pose proof (translate_newlines_length_le (decode_utf8_ignore bs)) as H2.
    pose proof (decode_utf8_ignore_length_le (length bs) bs (Nat.le_refl _)).
    cbv beta iota in H1. lia. }
  repeat split; [lia| |].
  - intros bs' [= <-]. lia.
  - intros [= ->]. reflexivity.
Qed.

Lemma last_app_nonempty {B : Type} (l1 l2 : list B) (d : B) :
  l2 <> [] -> last (l1 ++ l2) d = last l2 d.
Proof.
  intros Hne. induction l1 as [|a l1 IH]; [reflexivity|].
  cbn [app]. rewrite last_cons_nonempty; [exact IH|].
  destruct l1; [cbn; exact Hne|discriminate].
Qed.

Lemma plain_bytes_no_terminator (seg : list byte) (rest : text) :
  Forall plain_byte seg ->
  line_terminators (map Byte.to_N seg ++ rest)%list = line_terminators rest.
Proof.
  induction 1 as [|b seg (_ & H10 & H13) _ IH]; [reflexivity|].
  cbn [map app line_terminators]. now rewrite ends_line_other, IH.
Qed.

Lemma terminated_lines_text (term : list byte) (segs : list (list byte))
  (rest : list byte) :
  line_terminator term -> Forall (Forall plain_byte) segs ->
  Forall plain_byte rest ->
  decode_utf8_ignore (terminated_lines term segs rest)
  = map Byte.to_N (terminated_lines term segs rest).
Proof.
  intros Hterm Hsegs Hrest. apply decode_utf8_ignore_ascii.
  unfold terminated_lines. apply Forall_app. split.
  - apply Forall_concat. apply Forall_map.
    eapply Forall_impl; [|exact Hsegs]. intros seg Hseg.
    apply Forall_app. split.
    + eapply Forall_impl; [|exact Hseg]. intros b (H & _). exact H.
    + destruct Hterm as [->|[->| ->]]; repeat constructor.
  - eapply Forall_impl; [|exact Hrest]. intros b (H & _). exact H.
Qed.

(** The text of such a file does not start with a line feed when its
    terminator does not. *)
Lemma terminated_lines_head (term : list byte) (segs : list (list byte))
  (rest : list byte) :
  term = [x0d; x0a] \/ term = [x0d] ->
  Forall (Forall plain_byte) segs -> Forall plain_byte rest ->
  match map Byte.to_N (terminated_lines term segs rest) with
  | c :: _ => (c =? 10)%N
  | [] => false
  end = false.
Proof.
  intros Hterm Hsegs Hrest. unfold terminated_lines.
  destruct segs as [|seg segs].
  - cbn. destruct Hrest as [|b rest (_ & H10 & _) _]; [reflexivity|].
    cbn. now apply N.eqb_neq.
  - inversion Hsegs as [|? ? Hseg _]; subst. cbn [map concat].
    destruct Hseg as [|b seg (_ & H10 & _) _].
    + destruct Hterm as [->| ->]; reflexivity.
    + cbn. now apply N.eqb_neq.
Qed.

Lemma terminated_lines_cons (term seg : list byte) (segs : list (list byte))
  (rest : list byte) :
  terminated_lines term (seg :: segs) rest
  = ((seg ++ term) ++ terminated_lines term segs rest)%list.
Proof. unfold terminated_lines. cbn [map concat]. now rewrite app_assoc. Qed.

Lemma terminated_lines_terminators (term : list byte)
  (segs : list (list byte)) (rest : list byte) :
  line_terminator term -> Forall (Forall plain_byte) segs ->
  Forall plain_byte rest ->
  line_terminators (map Byte.to_N (terminated_lines term segs rest))
  = Z.of_nat (length segs).
Proof.
  intros Hterm Hsegs Hrest. induction Hsegs as [|seg segs Hseg Hsegs IH].
  - unfold terminated_lines. cbn [map concat app length].
    rewrite <- (app_nil_r (map Byte.to_N rest)).
    now rewrite plain_bytes_no_terminator.
  - rewrite terminated_lines_cons.
    rewrite !map_app, <- app_assoc, plain_bytes_no_terminator by assumption.
    cbn [length]. rewrite Nat2Z.inj_succ, <- IH.
    pose proof (terminated_lines_head term segs rest) as Hhead.
    destruct Hterm as [->|[->| ->]]; cbn [map app line_terminators];
      change (Byte.to_N x0a) with 10%N in *;
      change (Byte.to_N x0d) with 13%N in *.
    + rewrite ends_line_10. lia.
    + rewrite ends_line_13, ends_line_10. cbn [negb N.eqb Pos.eqb]. lia.
    + rewrite ends_line_13, Hhead by auto. cbn [negb]. lia.
Qed.

Lemma terminated_lines_tail (term : list byte) (segs : list (list byte))
  (rest : list byte) :
  line_terminator term -> Forall plain_byte rest ->
  unterminated_tail (map Byte.to_N (terminated_lines term segs rest))
  = match rest with [] => false | _ => true end.
Proof.
  intros Hterm Hrest. unfold unterminated_tail, terminated_lines.
  rewrite map_app.
  destruct rest as [|b rest].
  - rewrite app_nil_r.
    induction segs as [|seg segs IH] using rev_ind; [reflexivity|].
    rewrite map_app, concat_app. cbn [map concat].
    rewrite app_nil_r, !map_app, app_assoc.
    rewrite last_app_nonempty
      by (destruct Hterm as [->|[->| ->]]; discriminate).
    destruct Hterm as [->|[->| ->]]; reflexivity.
  - rewrite last_app_nonempty by discriminate.
    assert (Hlast : plain_byte (last (b :: rest) b)).
    { apply Forall_forall with (x := last (b :: rest) b) in Hrest;
        [exact Hrest|].
      destruct (exists_last (l := b :: rest) ltac:(discriminate))
        as (l' & a & E).
      rewrite E, last_last. apply in_or_app. right. now left. }
    assert (E : last (map Byte.to_N (b :: rest)) 10%N
                = Byte.to_N (last (b :: rest) b)).
    { destruct (exists_last (l := b :: rest) ltac:(discriminate))
        as (l' & a & ->).
      rewrite map_app. cbn [map]. now rewrite !last_last. }
    rewrite E. destruct Hlast as (_ & H10 & H13).
    apply N.eqb_neq in H10, H13. now rewrite H10, H13.
Qed.

(** X6. A file whose lines all end with the same terminator, a line
    feed, a carriage return and a line feed, or a carriage return, has as
    many lines as it has terminators, plus one when bytes follow the last
    terminator: the three conventions count alike, and a last line needs
    no terminator. *)
Theorem count_lines_uniform_terminator (f : file) (term : list byte)
  (segs : list (list byte)) (rest : list byte) :
  line_terminator term -> Forall (Forall plain_byte) segs ->
  Forall plain_byte rest ->
  f_bytes f = Some (terminated_lines term segs rest) ->
  count_lines f
  = Z.of_nat (length segs) + match rest with [] => 0 | _ => 1 end.
Proof.
  intros Hterm Hsegs Hrest Hbytes.
  unfold count_lines, open_lines. rewrite Hbytes, sum_ones.
  rewrite text_lines_length, terminated_lines_text by assumption.
  rewrite terminated_lines_terminators, terminated_lines_tail by assumption.
  now destruct rest.
Qed.

Lemma count_lines_uniform_terminator_witness :
  count_lines
    {| f_name := "dos.bat"; f_size := None;
       f_bytes := Some (terminated_lines [x0d; x0a]
                          [[x61]; []; [x62; x63]] [x64]) |}
  = 3 + 1.
Proof.
  apply (count_lines_uniform_terminator _ [x0d; x0a] [[x61]; []; [x62; x63]]
           [x64]).
  - right. left. reflexivity.
  - repeat constructor; cbn; try lia; discriminate.
  - repeat constructor; cbn; try lia; discriminate.
  - reflexivity.
Defined.

(** ** The tables of the largest and of the smallest files *)

Lemma slice_to_firstn {B : Type} (l : list B) (n : Z) :
  exists k, slice_to l n = firstn k l.
Proof. unfold slice_to. destruct (n <? 0); eauto. Qed.

Lemma firstn_dominates {B : Type} (R : B -> B -> Prop) (k : nat) (l : list B)
  (a b : B) :
  StronglySorted R l -> In a (firstn k l) -> In b l -> ~ In b (firstn k l) ->
  R a b.
Proof.
  intros Hs Ha Hb Hnb. rewrite <- (firstn_skipn k l) in Hs, Hb.
  apply in_app_or in Hb. destruct Hb as [Hb|Hb]; [contradiction|].
  apply StronglySorted_app_inv in Hs. destruct Hs as (_ & _ & Hall).
  rewrite Forall_forall in Hall. specialize (Hall a Ha).
  rewrite Forall_forall in Hall. now apply Hall.
Qed.

(** X7. The table of the largest files holds the largest ones: no
    non-empty file that is left out has more lines than a file that is
    in.  Likewise no non-empty file left out of the table of the smallest
    files has fewer lines than a file that is in. *)
Theorem top_files_are_largest (file_info : list FileRecord) (n : Z)
  (a b : FileRecord) :
  In b (non_empty_files file_info) ->
  (In a (top_files file_info n) -> ~ In b (top_files file_info n) ->
   lines b <= lines a)
  /\ (In a (bottom_files file_info n) -> ~ In b (bottom_files file_info n) ->
      lines a <= lines b).
Proof.
  intros Hb. unfold top_files, bottom_files. split.
  - destruct (slice_to_firstn
                (sorted_reverse lines (non_empty_files file_info)) n)
      as (k & ->).
    intros Ha Hnb.
    pose proof (firstn_dominates (descending lines) k _ a b
                  (sorted_reverse_descending lines _) Ha) as H.
    unfold descending, py_le in H. cbn in H. apply Z.ltb_ge. apply H; auto.
    eapply Permutation_in; [symmetry; apply (sorted_reverse_perm lines)|].
    exact Hb.
  - destruct (slice_to_firstn (sorted lines (non_empty_files file_info)) n)
      as (k & ->).
    intros Ha Hnb.
    pose proof (firstn_dominates (ascending lines) k _ a b
                  (sorted_ascending lines _) Ha) as H.
    unfold ascending, py_le in H. cbn in H. apply Z.ltb_ge. apply H; auto.
    eapply Permutation_in; [symmetry; apply (sorted_perm lines)|].
    exact Hb.
Qed.

Lemma top_files_are_largest_witness :
  lines (record_of ascii_lower [] Makefile 4)
  <= lines (record_of ascii_lower ["Node_Modules"] E_PY 12).
Proof.
  apply (proj1 (top_files_are_largest
                  (get_file_info ascii_lower sample_tree None None) 2
                  (record_of ascii_lower ["Node_Modules"] E_PY 12)
                  (record_of ascii_lower [] Makefile 4)
                  ltac:(vm_compute; tauto))).
  - vm_compute. tauto.
  - vm_compute. intros [H|[H|[]]]; discriminate.
Defined.






(** ** The run *)

Ltac main_outcome :=
  cbn [written flat_map app In length];
  repeat match goal with
         | |- _ /\ _ => split
         | |- _ <-> _ => split
         end;
  intros;
  repeat match goal with
         | H : exists _, _ |- _ => destruct H
         | H : _ /\ _ |- _ => destruct H
         | H : _ \/ _ |- _ => destruct H
         | H : False |- _ => destruct H
         | H : Some _ = Some _ |- _ => injection H as H; subst
         | H : (_, _) = (_, _) |- _ => injection H as H; subst
         | H : OpenFile _ = OpenFile _ |- _ => injection H as H; subst
         | H : Uncaught _ = Uncaught _ |- _ => injection H as H; subst
         end;
  try discriminate; try congruence; try lia; auto;
  try (exfalso;
       match goal with
       | Hq : ~ no_file_qualifies _ ?t,
         Hfi : get_file_info _ ?t None None = [] |- _ =>
           apply Hq; apply get_file_info_nil; exact Hfi
       end);
  try match goal with
      | Hfi : get_file_info _ _ None None = _ :: _, H : encodable _ = false
        |- _ => rewrite Hfi in H; congruence
      | |- exists p, _ \/ OpenFile ?o = OpenFile p \/ _ => exists o; auto
      | Hfi : get_file_info _ ?t None None = _ :: _ |- exists tree, _ =>
          exists t; rewrite ?Hfi; repeat split; auto;
          intros Hq; apply get_file_info_nil in Hq; congruence
      end.

(** X10. The output file of [main].  [main] opens a file for writing
    exactly when the path is a directory, some file of its tree
    qualifies and [open] succeeds, and it opens the absolute output path
    only.  The report reaches the file exactly when, besides, the report
    can be encoded and no write fails; the file then holds the report of
    [generate_report] for the records of [get_file_info] under the
    default exclusions, and it is written once.  When the file is open
    and the report cannot be encoded, the file is left empty and
    [UnicodeEncodeError] leaves [main]. *)
Theorem main_output_outcomes (lower : string -> string) (w : world)
  (args : namespace) :
  let start_path := abspath w (arg_path args) in
  let output_path := abspath w (arg_output args) in
  let report tree :=
    generate_report lower start_path (get_file_info lower tree None None)
      (arg_top_n args) in
  let events := main lower w args in
  let reaches_open tree :=
    lookup w start_path = Some tree /\ isdir w start_path = true
    /\ ~ no_file_qualifies lower tree /\ open_error w output_path = None in
  ((exists p, In (OpenFile p) events) <-> exists tree, reaches_open tree)
  /\ (forall p, In (OpenFile p) events -> p = output_path)
  /\ (written events <> []
      <-> exists tree,
            reaches_open tree /\ encodable (report tree) = true
            /\ write_error w output_path (report tree) = None)
  /\ (forall p c,
        In (p, c) (written events) ->
        p = output_path
        /\ exists tree, lookup w start_path = Some tree /\ c = report tree)
  /\ (length (written events) <= 1)%nat
  /\ (In (Uncaught "UnicodeEncodeError") events
      <-> exists tree, reaches_open tree /\ encodable (report tree) = false)
  /\ (forall tree,
        reaches_open tree -> encodable (report tree) = false ->
        events = [Print ("Analyzing files in: " ++ start_path ++ "...");
                  OpenFile output_path; Uncaught "UnicodeEncodeError"]).
Proof.
  intros start_path output_path report events reaches_open.
  subst events reaches_open. unfold main, isdir.
  fold start_path. fold output_path.
  destruct (lookup w start_path) as [[f|name es]|] eqn:Hlook.
  - main_outcome.
  - destruct (get_file_info lower (Dir name es) None None) as [|r rs] eqn:Hfi.
    + main_outcome.
    + destruct (open_error w output_path) as [e|] eqn:Hopen.
      * main_outcome.
      * unfold report. 
        destruct (encodable (generate_report lower start_path (r :: rs)
                               (arg_top_n args))) eqn:Henc.
        -- destruct (write_error w output_path _) as [e|] eqn:Hwrite.
           ++ main_outcome.
           ++ main_outcome.
              split; [reflexivity|]. exists (Dir name es). now rewrite Hfi.
        -- main_outcome.
  - main_outcome.
Qed.

(** The name [caf\xe9.py] is not valid UTF-8, so the report that lists it
    cannot be encoded: the output file is created, nothing is written to
    it and the exception leaves [main]. *)
Example main_leaves_empty_file :
  let w := world_with latin1_tree in
  main ascii_lower w (parse_arguments w (Some "project") None None)
  = [Print "Analyzing files in: /home/user/project...";
     OpenFile "/home/user/LINE_COUNT.md";
     Uncaught "UnicodeEncodeError"].
Proof. vm_compute. reflexivity. Qed.

(** An output file that cannot be opened: the error is printed and no
    file is created. *)
Example main_reports_open_failure :
  let w := world_read_only sample_tree in
  main ascii_lower w (parse_arguments w (Some "project") None None)
  = [Print "Analyzing files in: /home/user/project...";
     Print ("Error writing to /home/user/LINE_COUNT.md: "
            ++ "[Errno 13] Permission denied: '/home/user/LINE_COUNT.md'")].
Proof. vm_compute. reflexivity. Qed.

Example encodable_examples :
  encodable ("caf" ++ String (ascii_of_byte xc3) (String (ascii_of_byte xa9) ""))
  = true
  /\ encodable ("caf" ++ String (ascii_of_byte xe9) "") = false
  /\ encodable (String (ascii_of_byte xed)
                  (String (ascii_of_byte xa0) (String (ascii_of_byte x80) "")))
     = false.
Proof. repeat split; vm_compute; reflexivity. Qed.

(** ** The columns *)

(** X11. The size column is within a twentieth of a KB of the size of
    the file: for a file of [n] bytes it shows the decimal with one
    fractional digit that is nearest to [n / 1024]. *)
Theorem size_column_accuracy (n : Z) :
  0 <= n < 2 ^ 53 ->
  exists whole tenth : Z,
    0 <= tenth < 10
    /\ format_1f (true_div_1024 n)
       = digits whole ++ "." ++ String (digit tenth) ""
    /\ Z.abs (1024 * (10 * whole + tenth) - 10 * n) <= 512.
Proof.
  intros Hn. unfold true_div_1024.
  destruct (Z.ltb_spec n (2 ^ 53)) as [_|Hge]; [|lia].
  unfold format_1f.
  destruct (Qlt_le_dec (n # 1024) 0) as [Hneg|_].
  { unfold Qlt in Hneg. cbn in Hneg. lia. }
  unfold format_1f_abs.
  set (t := round_half_even ((n # 1024) * 10)).
  pose proof (round_half_even_nearest ((n # 1024) * 10)) as Hnear.
  fold t in Hnear. cbn [Qmult Qnum Qden inject_Z] in Hnear.
  change (Z.pos (1024 * 1)) with 1024 in Hnear.
  pose proof (Z.mod_pos_bound t 10 ltac:(lia)) as Hm.
  pose proof (Z.div_mod t 10 ltac:(lia)) as Hdm.
  exists (t / 10), (t mod 10). split; [exact Hm|]. split.
  - now rewrite (digits_one (t mod 10) Hm).
  - lia.
Qed.

Lemma size_column_accuracy_witness :
  exists whole tenth : Z,
    0 <= tenth < 10
    /\ format_1f (true_div_1024 1587)
       = digits whole ++ "." ++ String (digit tenth) ""
    /\ Z.abs (1024 * (10 * whole + tenth) - 10 * 1587) <= 512.
Proof. apply (size_column_accuracy 1587). lia. Defined.

(** X12. The line count column can be read back: without its commas and
    its sign it is the decimal numeral of the absolute value of the
    count. *)
Theorem format_commas_round_trip (n : Z) :
  format_commas n = (if n <? 0 then "-" else "") ++ format_commas (Z.abs n)
  /\ decimal_value 0 (strip_commas (format_commas (Z.abs n))) = Z.abs n.
Proof.
  split.
  - unfold format_commas.
    destruct (Z.ltb_spec (Z.abs n) 0) as [Ha|_]; [lia|].
    destruct (Z.ltb_spec n 0).
    + now rewrite Z.abs_neq by lia.
    + now rewrite Z.abs_eq by lia.
  - rewrite strip_commas_format_commas. unfold str.
    destruct (Z.ltb_spec (Z.abs n) 0) as [Ha|_]; [lia|].
    apply digits_value. lia.
Qed.

(** ** Names and paths *)






Lemma has_char_append (c : ascii) (a b : string) :
  has_char c (a ++ b) <-> has_char c a \/ has_char c b.
Proof.
  unfold has_char. induction a as [|x a IH]; cbn; [tauto|].
  rewrite IH. tauto.
Qed.

Lemma replace_absent (a b : ascii) (s : string) :
  ~ has_char a s -> replace a b s = s.
Proof.
  unfold has_char. induction s as [|c s IH]; [reflexivity|].
  cbn [replace list_ascii_of_string In]. intros Hc.
  destruct (Ascii.eqb_spec c a) as [->|_]; [tauto|].
  rewrite IH; tauto.
Qed.

Lemma join_has_char (c : ascii) (sep : string) (parts : list string) :
  ~ has_char c sep -> Forall (fun p => ~ has_char c p) parts ->
  ~ has_char c (join sep parts).
Proof.
  intros Hsep. induction 1 as [|p parts Hp Hparts IH]; [cbn; tauto|].
  destruct parts as [|q parts]; [exact Hp|].
  change (join sep (p :: q :: parts)) with (p ++ sep ++ join sep (q :: parts)).
  rewrite !has_char_append. tauto.
Qed.

Lemma split_at_separator (p q x y : string) :
  ~ has_char "/" p -> ~ has_char "/" q ->
  p ++ "/" ++ x = q ++ "/" ++ y -> p = q /\ x = y.
Proof.
  unfold has_char. revert q.
  induction p as [|a p IH]; intros [|b q] Hp Hq E; cbn in *.
  - injection E as ->. auto.
  - injection E as <- _. tauto.
  - injection E as -> _. tauto.
  - injection E as -> E. destruct (IH q) as [-> ->]; auto.
Qed.

Lemma join_slash_injective (l1 l2 : list string) :
  l1 <> [] -> l2 <> [] ->
  Forall (fun p => ~ has_char "/" p) l1 ->
  Forall (fun p => ~ has_char "/" p) l2 ->
  join "/" l1 = join "/" l2 -> l1 = l2.
Proof.
  intros Hn1 Hn2 H1. revert l2 Hn2.
  induction H1 as [|p l1 Hp H1 IH]; [congruence|].
  intros [|q l2] Hn2 H2 E; [congruence|].
  inversion H2 as [|? ? Hq H2']; subst.
  destruct l1 as [|p' l1]; destruct l2 as [|q' l2].
  - cbn in E. now subst.
  - exfalso. apply Hp.
    change (join "/" [p]) with p in E. rewrite E.
    change (join "/" (q :: q' :: l2)) with (q ++ "/" ++ join "/" (q' :: l2)).
    rewrite !has_char_append. right. left. unfold has_char. cbn. tauto.
  - exfalso. apply Hq.
    change (join "/" [q]) with q in E. rewrite <- E.
    change (join "/" (p :: p' :: l1)) with (p ++ "/" ++ join "/" (p' :: l1)).
    rewrite !has_char_append. right. left. unfold has_char. cbn. tauto.
  - change (join "/" (p :: p' :: l1))
      with (p ++ "/" ++ join "/" (p' :: l1)) in E.
    change (join "/" (q :: q' :: l2))
      with (q ++ "/" ++ join "/" (q' :: l2)) in E.
    apply split_at_separator in E; [|assumption|assumption].
    destruct E as [-> E]. f_equal.
    apply IH; [discriminate|discriminate|exact H2'|exact E].
Qed.

(** X14. Two files get the same relative path only if they are the same
    file of the same directory, as long as no name on the way holds a
    slash or a backslash: the path then tells where the file is. *)
Theorem rel_path_injective (rel rel' : list string) (name name' : string) :
  Forall (fun p => ~ has_char "/" p /\ ~ has_char "\" p)
    (name :: name' :: rel ++ rel') ->
  rel_path rel name = rel_path rel' name' ->
  rel = rel' /\ name = name'.
Proof.
  intros Hall E. unfold rel_path in E.
  inversion Hall as [|? ? Hn Hall1]; subst.
  inversion Hall1 as [|? ? Hn' Hrr]; subst.
  apply Forall_app in Hrr. destruct Hrr as [Hr Hr'].
  assert (Hs : Forall (fun p => ~ has_char "/" p) (rel ++ [name])).
  { apply Forall_app. split; [|constructor; [tauto|constructor]].
    eapply Forall_impl; [|exact Hr]. cbn. tauto. }
  assert (Hs' : Forall (fun p => ~ has_char "/" p) (rel' ++ [name'])).
  { apply Forall_app. split; [|constructor; [tauto|constructor]].
    eapply Forall_impl; [|exact Hr']. cbn. tauto. }
  assert (Hb : Forall (fun p => ~ has_char "\" p) (rel ++ [name])).
  { apply Forall_app. split; [|constructor; [tauto|constructor]].
    eapply Forall_impl; [|exact Hr]. cbn. tauto. }
  assert (Hb' : Forall (fun p => ~ has_char "\" p) (rel' ++ [name'])).
  { apply Forall_app. split; [|constructor; [tauto|constructor]].
    eapply Forall_impl; [|exact Hr']. cbn. tauto. }
  rewrite !replace_absent in E;
    try (apply join_has_char; [unfold has_char; cbn; intuition discriminate|];
         assumption).
  apply join_slash_injective in E; try assumption.
  - now apply app_inj_tail in E.
  - destruct rel; discriminate.
  - destruct rel'; discriminate.
Qed.

Lemma rel_path_injective_witness :
  ["node_modules"; "lib"] = ["node_modules"; "lib"] /\ "d.py" = "d.py".
Proof.
  apply (rel_path_injective ["node_modules"; "lib"] ["node_modules"; "lib"]
           "d.py" "d.py").
  - unfold has_char. repeat constructor; cbn; intuition discriminate.
  - reflexivity.
Defined.

(** A name with a backslash can give the path of another file. *)
Example rel_path_backslash_collision :
  rel_path [] "a\b.py" = rel_path ["a"] "b.py".
Proof. reflexivity. Qed.

(** ** Ties in the tables *)

Section StableOrder.
Context {A K : Type} `{PyOrdLaws K}.
Variable key : A -> K.
Variable R2 : A -> A -> Prop.

Lemma insert_sorted_key_then (x : A) (m : list A) :
  StronglySorted (key_then key R2) m -> Forall (R2 x) m ->
  StronglySorted (key_then key R2) (insert_sorted key x m).
Proof.
  induction 1 as [|y m Hm IH Hy]; intros Hx; cbn [insert_sorted].
  - repeat constructor.
  - inversion Hx as [|? ? Hxy Hxm]; subst.
    destruct (py_lt (key y) (key x)) eqn:E.
    + constructor; [now apply IH|].
      eapply Permutation_Forall; [symmetry; apply insert_sorted_perm|].
      constructor; [|exact Hy].
      split; [now apply py_lt_asym|].
      unfold py_le. congruence.
    + constructor; [now constructor|].
      constructor; [split; [exact E|auto]|].
      rewrite Forall_forall in Hy, Hxm |- *. intros z Hz.
      split; [|auto].
      apply (py_le_trans _ (key y)); [exact E|apply (Hy z Hz)].
Qed.

Lemma sorted_key_then (l : list A) :
  StronglySorted R2 l -> StronglySorted (key_then key R2) (sorted key l).
Proof.
  induction 1 as [|x l Hl IH Hx]; cbn [sorted]; [constructor|].
  apply insert_sorted_key_then; [exact IH|].
  eapply Permutation_Forall; [symmetry; apply sorted_perm|exact Hx].
Qed.

End StableOrder.

Lemma StronglySorted_filter {B : Type} (R : B -> B -> Prop) (p : B -> bool)
  (l : list B) :
  StronglySorted R l -> StronglySorted R (filter p l).
Proof.
  induction 1 as [|a l Hl IH Ha]; cbn [filter]; [constructor|].
  destruct (p a); [|exact IH]. constructor; [exact IH|].
  rewrite Forall_forall in Ha |- *. intros b Hb.
  apply filter_In in Hb. now apply Ha.
Qed.

Lemma StronglySorted_firstn {B : Type} (R : B -> B -> Prop) (k : nat)
  (l : list B) :
  StronglySorted R l -> StronglySorted R (firstn k l).
Proof.
  intros Hs. rewrite <- (firstn_skipn k l) in Hs.
  now apply StronglySorted_app_inv in Hs.
Qed.

(** X16. In the tables made from the result of [get_file_info], files
    with equal line counts stand in the ascending order of their paths,
    case ignored: the table of the largest files is in the order of the
    full listing, and the table of the smallest files orders the line
    counts the other way and equal line counts the same way. *)
Theorem ties_in_path_order (lower : string -> string) (top : entry)
  (skip_dirs skip_extensions : option (list string)) (n : Z) :
  let file_info := get_file_info lower top skip_dirs skip_extensions in
  StronglySorted (by_lines_then_path lower Z.ge) (top_files file_info n)
  /\ StronglySorted (by_lines_then_path lower Z.le)
       (bottom_files file_info n).
Proof.
  cbv zeta.
  set (file_info := get_file_info lower top skip_dirs skip_extensions).
  assert (Hfi : StronglySorted
                  (fun a b => String.ltb (lower (path b)) (lower (path a))
                              = false)
                  (non_empty_files file_info)).
  { apply StronglySorted_filter. unfold file_info, get_file_info.
    eapply StronglySorted_impl;
      [|apply (sorted_ascending (fun x => lower (path x)))].
    intros a b Hab. exact Hab. }
  unfold top_files, bottom_files. split.
  - destruct (slice_to_firstn
                (sorted_reverse lines (non_empty_files file_info)) n)
      as (k & ->).
    apply StronglySorted_firstn. unfold sorted_reverse.
    pose proof (sorted_key_then lines
                  (fun a b => String.ltb (lower (path a)) (lower (path b))
                              = false)
                  (rev (non_empty_files file_info))
                  (StronglySorted_rev _ _ Hfi)) as Hs.
    apply StronglySorted_rev in Hs.
    eapply StronglySorted_impl; [|exact Hs].
    intros a b [Hle Heq]. unfold py_le in *. cbn in *.
    apply Z.ltb_ge in Hle. split; [lia|].
    intros E. apply Heq. apply Z.ltb_ge. lia.
  - destruct (slice_to_firstn (sorted lines (non_empty_files file_info)) n)
      as (k & ->).
    apply StronglySorted_firstn.
    pose proof (sorted_key_then lines _ _ Hfi) as Hs.
    eapply StronglySorted_impl; [|exact Hs].
    intros a b [Hle Heq]. unfold py_le in *. cbn in *.
    apply Z.ltb_ge in Hle. split; [lia|].
    intros E. apply Heq. apply Z.ltb_ge. lia.
Qed.

(** ** The catalogue of exclusions *)

Lemma prefix_append (x a b : string) :
  String.prefix x a = true -> String.prefix x (a ++ b) = true.
Proof.
  revert a. induction x as [|c x IH]; intros a H;
    [destruct (a ++ b); reflexivity|].
  destruct a as [|d a]; [discriminate|].
  cbn [String.prefix append] in *.
  destruct (ascii_dec c d); [now apply IH|discriminate].
Qed.

Lemma prefix_refl (x : string) : String.prefix x x = true.
Proof.
  induction x as [|c x IH]; [reflexivity|].
  cbn [String.prefix]. destruct (ascii_dec c c); [exact IH|congruence].
Qed.

Lemma contains_refl (x : string) : contains x x = true.
Proof. destruct x; cbn [contains]; now rewrite prefix_refl. Qed.

Lemma contains_append_r (x a b : string) :
  contains x b = true -> contains x (a ++ b) = true.
Proof.
  intros H. induction a as [|c a IH]; [exact H|].
  cbn [append contains]. rewrite IH. apply orb_true_r.
Qed.

Lemma contains_append_l (x a b : string) :
  contains x a = true -> contains x (a ++ b) = true.
Proof.
  induction a as [|c a IH]; intros H.
  - cbn [contains] in H. rewrite orb_false_r in H.
    destruct x; [|discriminate]. destruct b; reflexivity.
  - cbn [append contains] in *. apply orb_true_iff in H.
    destruct H as [H|H].
    + apply (prefix_append x (String c a) b) in H.
      cbn [append] in H. now rewrite H.
    + rewrite (IH H). apply orb_true_r.
Qed.

Lemma contains_join (x sep : string) (parts : list string) (p : string) :
  In p parts -> contains x p = true -> contains x (join sep parts) = true.
Proof.
  intros Hin Hp. induction parts as [|q parts IH]; [contradiction|].
  destruct parts as [|q' parts].
  - destruct Hin as [->|[]]. exact Hp.
  - change (join sep (q :: q' :: parts))
      with (q ++ sep ++ join sep (q' :: parts)).
    destruct Hin as [->|Hin].
    + now apply contains_append_l.
    + apply contains_append_r, contains_append_r. now apply IH.
Qed.

(** X15. The catalogue names everything that is excluded: the heading of
    every category, every extension of every category and every excluded
    directory, the last two between backquotes. *)
Theorem catalogue_complete (cats : list (string * list string))
  (dirs : list string) :
  (forall d, In d dirs ->
             contains (backticked d) (exclusions_list cats dirs) = true)
  /\ (forall c exts e,
        In (c, exts) cats -> In e exts ->
        contains ("### " ++ c) (exclusions_list cats dirs) = true
        /\ contains (backticked e) (exclusions_list cats dirs) = true).
Proof.
  unfold exclusions_list. split.
  - intros d Hd.
    apply contains_join
      with (p := join ", " (map backticked (sorted (fun x => x) dirs))).
    + apply in_or_app. right. apply in_or_app. right. cbn. tauto.
    + apply contains_join with (p := backticked d); [|apply contains_refl].
      apply in_map. eapply Permutation_in; [symmetry; apply sorted_perm|].
      exact Hd.
  - intros c exts e Hc He.
    assert (Hs : In (c, exts) (sorted fst cats))
      by (eapply Permutation_in; [symmetry; apply sorted_perm|exact Hc]).
    split.
    + apply contains_join with (p := "### " ++ c); [|apply contains_refl].
      apply in_or_app. right. apply in_or_app. left.
      apply in_flat_map. exists (c, exts). split; [exact Hs|]. cbn. tauto.
    + apply contains_join
        with (p := join ", " (map backticked (sorted (fun x => x) exts))).
      * apply in_or_app. right. apply in_or_app. left.
        apply in_flat_map. exists (c, exts). split; [exact Hs|]. cbn. tauto.
      * apply contains_join with (p := backticked e); [|apply contains_refl].
        apply in_map. eapply Permutation_in; [symmetry; apply sorted_perm|].
        exact He.
Qed.
